(** * Spacedrive interface: account settings screen and recent-items card

    A shallow embedding of two view components of the Spacedrive interface:

    - [interface/app/$libraryId/settings/client/account/index.tsx]:
      the account panel [Component] and the [HostedLocationsPlayground];
    - [interface/app/$libraryId/overview/cards/RecentItems.tsx]:
      the [RecentItemsCard].

    A component is modelled by its hook state (a record), its render
    function (state to a tree of elements whose event handlers are data),
    and its callbacks (lists of calls, run in order against the state).
    What the platform does (fetch, JSON, the query library, Date) is
    written out next to the place that relies on it. *)

From stdpp Require Import base strings list.
From Stdlib Require Import ZArith Lia.

Local Open Scope string_scope.
Local Open Scope list_scope.
Local Set Warnings "-register-all".

(** ** JavaScript values as [Response.json()] produces them *)

Module Js.

Inductive Value :=
| JNull
| JBool (b : bool)
| JNum (n : Z)
| JStr (s : string)
| JArr (items : list Value)
| JObj (members : list (string * Value)).

(** A completion of an evaluation: a value, or a thrown exception
    (for a promise: fulfilled, or rejected). *)
Inductive Completion (A : Type) :=
| Normal (a : A)
| Throw.
Arguments Normal {A} a.
Arguments Throw {A}.

Definition bind {A B} (c : Completion A) (k : A → Completion B) : Completion B :=
  match c with
  | Normal a => k a
  | Throw => Throw
  end.

(** Members are kept in the order of the text; for a repeated key
    [JSON.parse] keeps the last value. *)
Fixpoint lookup_member (k : string) (ms : list (string * Value)) : option Value :=
  match ms with
  | [] => None
  | (k', v) :: rest =>
      match lookup_member k rest with
      | Some w => Some w
      | None => if decide (k' = k) then Some v else None
      end
  end.

(** [v.k] for a key [k] that no built-in prototype defines (the two keys
    read by the account panel, [message] and [email], are such keys):
    reading a property of [null] throws a TypeError, an object gives its
    member or [undefined] ([None]), every other value gives [undefined]. *)
Definition get (v : Value) (k : string) : Completion (option Value) :=
  match v with
  | JNull => Throw
  | JObj ms => Normal (lookup_member k ms)
  | JBool _ | JNum _ | JStr _ | JArr _ => Normal None
  end.

(** [x !== s] for a string literal [s]: strict inequality holds unless [x]
    is a string with the same characters. *)
Definition strict_neq_str (x : option Value) (s : string) : bool :=
  match x with
  | Some (JStr s') => negb (bool_decide (s' = s))
  | _ => true
  end.

End Js.

(** ** The account panel ([Component], index.tsx lines 18-67) *)

Module Account.
Import Js.

(** What [fetch] settles to.  [fetch] rejects only when no response
    arrives; a response of any status fulfils the promise.  [json] is the
    result of [user_data.json()]: [None] when the body is not JSON (the
    promise rejects). *)
Record Response := { status : Z; json : option Value }.

Inductive Fetch :=
| Rejected
| Fulfilled (user_data : Response).

Definition ok (r : Response) : bool := (200 <=? status r)%Z && (status r <=? 299)%Z.

(** The inner [async function _()] (lines 24-30): awaits the response,
    awaits its JSON, returns it.  The status is not read. *)
Definition fetch_user (f : Fetch) : Completion Value :=
  match f with
  | Rejected => Throw
  | Fulfilled user_data =>
      match json user_data with
      | Some data => Normal data
      | None => Throw
      end
  end.

(** The [then] callback (lines 31-37); the result is the argument of the
    call to [setUserInfo]. *)
Definition then_callback (data : Value) : Completion Value :=
  bind (get data "message") (λ message,
    if strict_neq_str message "unauthorised"
    then Normal data
    else Normal JNull).

(** [useState<User | null>(null)] *)
Definition userInfo_initial : Value := JNull.

(** The mount effect (lines 23-39): a rejected chain has no handler and
    leaves the state as it was. *)
Definition useEffect (userInfo : Value) (f : Fetch) : Value :=
  match bind (fetch_user f) then_callback with
  | Normal v => v
  | Throw => userInfo
  end.

(** The rendered panel: the heading's right area holds the logout button
    when [userInfo !== null] (lines 45-51); the body is the auth tabs or
    the profile (lines 58-62). *)
Inductive Body :=
| Tabs
| Profile (email : option Value).

Record View := { logout_button : bool; body : Body }.

Definition Component (userInfo : Value) : Completion View :=
  match userInfo with
  | JNull => Normal {| logout_button := false; body := Tabs |}
  | _ =>
      bind (get userInfo "email") (λ email,
        Normal {| logout_button := true; body := Profile email |})
  end.

(** The view once the fetch issued on mount has settled. *)
Definition settled_view (f : Fetch) : Completion View :=
  Component (useEffect userInfo_initial f).

Definition logged_out : View := {| logout_button := false; body := Tabs |}.
Definition profile_of (email : option Value) : View :=
  {| logout_button := true; body := Profile email |}.

(** The payload the callback receives, when there is one. *)
Definition payload (f : Fetch) : option Value :=
  match f with
  | Rejected => None
  | Fulfilled r => json r
  end.

(** The payload carries the backend marker [{message: "unauthorised"}]. *)
Definition unauthorised (data : Value) : Prop :=
  get data "message" = Normal (Some (JStr "unauthorised")).

Definition non_2xx (f : Fetch) : Prop :=
  match f with
  | Rejected => False
  | Fulfilled r => ok r = false
  end.

(** A response of status 500 whose body is the JSON text
    [{"message": "Internal Server Error"}]. *)
Definition server_error : Fetch :=
  Fulfilled {| status := 500;
               json := Some (JObj [("message", JStr "Internal Server Error")]) |}.

(** A response of status 200 whose body is a user. *)
Definition signed_in : Fetch :=
  Fulfilled {| status := 200;
               json := Some (JObj [("email", JStr "ada@example.com");
                                   ("id", JStr "7f3a");
                                   ("timejoined", JNum 1700000000000);
                                   ("roles", JArr [JStr "user"])]) |}.

End Account.

(** ** The hosted locations playground (index.tsx lines 69-185) *)

Module Playground.

Record CloudLocation := { id : string; name : string }.

(** The result of [useBridgeQuery(['cloud.locations.list'])]: the
    component reads [locations.status] and [locations.data]. *)
Inductive QueryStatus := loading | error | success.

Record Query := {
  status : QueryStatus;
  data : option (list CloudLocation)   (* [None]: [undefined] *)
}.


(** The result of [useBridgeMutation]: the component reads [isLoading]. *)
Module Mutation.
Record t := { isLoading : bool }.
End Mutation.
Abbreviation Mutation := Mutation.t.
Definition in_flight : Mutation := {| Mutation.isLoading := true |}.
Definition idle : Mutation := {| Mutation.isLoading := false |}.

(** The error object handed to [onError]. *)
Record Error := { message : string }.

(** Hook state of one instance of the component. *)
Record State := {
  locations : Query;
  locationName : string;             (* [useState('')], line 72 *)
  path : string;                     (* [useState('')], line 73 *)
  createLocation : Mutation;
  removeLocation : Mutation;
  doTheThing : Mutation
}.

(** State on mount, before the list query has answered. *)
Definition initial : State := {|
  locations := {| status := loading; data := None |};
  locationName := "";
  path := "";
  createLocation := idle;
  removeLocation := idle;
  doTheThing := idle
|}.

(** The calls a handler makes, in the order it makes them. *)
Inductive Call :=
| setLocationName (v : string)
| setPath (v : string)
| locations_refetch
| createLocation_mutate (name : string)
| removeLocation_mutate (id : string)
| doTheThing_mutate (id : string) (path : string)
| toast_success (msg : string)
| toast_error (msg : string).

#[global] Instance Call_eq_dec : EqDecision Call.
Proof. solve_decision. Defined.

Definition Handler := list Call.

Definition with_locationName (v : string) (st : State) : State :=
  {| locations := locations st; locationName := v; path := path st;
     createLocation := createLocation st; removeLocation := removeLocation st;
     doTheThing := doTheThing st |}.

Definition with_path (v : string) (st : State) : State :=
  {| locations := locations st; locationName := locationName st; path := v;
     createLocation := createLocation st; removeLocation := removeLocation st;
     doTheThing := doTheThing st |}.

Definition with_locations (q : Query) (st : State) : State :=
  {| locations := q; locationName := locationName st; path := path st;
     createLocation := createLocation st; removeLocation := removeLocation st;
     doTheThing := doTheThing st |}.

Definition with_createLocation (m : Mutation) (st : State) : State :=
  {| locations := locations st; locationName := locationName st; path := path st;
     createLocation := m; removeLocation := removeLocation st;
     doTheThing := doTheThing st |}.

Definition with_removeLocation (m : Mutation) (st : State) : State :=
  {| locations := locations st; locationName := locationName st; path := path st;
     createLocation := createLocation st; removeLocation := m;
     doTheThing := doTheThing st |}.

Definition with_doTheThing (m : Mutation) (st : State) : State :=
  {| locations := locations st; locationName := locationName st; path := path st;
     createLocation := createLocation st; removeLocation := removeLocation st;
     doTheThing := m |}.

(** What a call does to the hook state: a state setter stores its
    argument, [mutate] puts its mutation in flight, the others act outside
    the component. *)
Definition exec (c : Call) (st : State) : State :=
  match c with
  | setLocationName v => with_locationName v st
  | setPath v => with_path v st
  | createLocation_mutate _ => with_createLocation in_flight st
  | removeLocation_mutate _ => with_removeLocation in_flight st
  | doTheThing_mutate _ _ => with_doTheThing in_flight st
  | locations_refetch | toast_success _ | toast_error _ => st
  end.

(** Running a handler: the state after its calls, and the calls made. *)
Definition run (h : Handler) (st : State) : State * list Call :=
  (foldl (λ s c, exec c s) st h, h).

(** *** Callbacks of the three mutations *)

(** [createLocation.onSuccess] (lines 75-80) *)
Definition createLocation_onSuccess (data : CloudLocation) : Handler :=
  [locations_refetch; setLocationName ""].

(** [removeLocation.onSuccess] (lines 83-87) *)
Definition removeLocation_onSuccess : Handler :=
  [locations_refetch].

(** [doTheThing.onSuccess] (lines 90-92) *)
Definition doTheThing_onSuccess : Handler :=
  [toast_success "Uploaded file!"].

(** [doTheThing.onError] (lines 93-95) *)
Definition doTheThing_onError (err : Error) : Handler :=
  [toast_error (message err)].

(** How a mutation settles. *)
Inductive Outcome (A : Type) :=
| Succeeded (a : A)
| Failed (err : Error).
Arguments Succeeded {A} a.
Arguments Failed {A} err.

(** The query library on completion: the mutation is no longer in flight
    and the callback for the outcome, when one was given, runs. *)
Definition createLocation_settle (o : Outcome CloudLocation) (st : State)
  : State * list Call :=
  let st := with_createLocation idle st in
  match o with
  | Succeeded data => run (createLocation_onSuccess data) st
  | Failed _ => run [] st
  end.

Definition removeLocation_settle (o : Outcome unit) (st : State)
  : State * list Call :=
  let st := with_removeLocation idle st in
  match o with
  | Succeeded _ => run removeLocation_onSuccess st
  | Failed _ => run [] st
  end.

Definition doTheThing_settle (o : Outcome unit) (st : State)
  : State * list Call :=
  let st := with_doTheThing idle st in
  match o with
  | Succeeded _ => run doTheThing_onSuccess st
  | Failed err => run (doTheThing_onError err) st
  end.

(** *** The auto-fill effect (lines 98-102) *)

(** [locations.data?.[0]] *)
Definition first_location (q : Query) : option CloudLocation :=
  match data q with
  | Some ls => ls !! 0%nat
  | None => None
  end.

(** [`location/${id}/hello.txt`] *)
Definition hello_path (l : CloudLocation) : string :=
  "location/" +:+ id l +:+ "/hello.txt".

Definition useEffect (st : State) : Handler :=
  if bool_decide (path st = "") then
    match first_location (locations st) with
    | Some l => [setPath (hello_path l)]
    | None => []
    end
  else [].

(** Line 104 *)
Definition isLoading (st : State) : bool :=
  Mutation.isLoading (createLocation st)
  || Mutation.isLoading (removeLocation st)
  || Mutation.isLoading (doTheThing st).

(** *** The rendered tree (lines 106-184) *)

Inductive Node :=
| Text (s : string)
| Div (children : list Node)
| H1 (children : list Node)
| P (children : list Node)
| Input (value : string) (placeholder : option string)
        (onInput : string → Handler) (disabled : bool)
| Button (onClick : Handler) (disabled : bool) (children : list Node)
| Heading (title description : string) (rightArea : Node)
| Fragment (children : list Node).

(** [onInput] of the name field (line 116) and of the path field (line 179) *)
Definition locationName_onInput (value : string) : Handler := [setLocationName value].
Definition path_onInput (value : string) : Handler := [setPath value].

(** [onClick] of the Create Location button (lines 124-127) *)
Definition createLocation_onClick (st : State) : Handler :=
  if bool_decide (locationName st = "") then []
  else [createLocation_mutate (locationName st)].

(** One row of the list (lines 146-169) *)
Definition location_row (st : State) (location : CloudLocation) : Node :=
  Div [ H1 [Text (name location)];
        Button [removeLocation_mutate (id location)] (isLoading st) [Text "Delete"];
        Button [doTheThing_mutate (id location) (path st)] (isLoading st)
               [Text "Do the thing"] ].

(** [locations.data?.map(...)]: no children when the data is [undefined] *)
Definition location_rows (st : State) : list Node :=
  match data (locations st) with
  | Some ls => map (location_row st) ls
  | None => []
  end.

(** [locations.data?.length === 0] *)
Definition data_length_is_0 (q : Query) : bool :=
  match data q with
  | Some ls => bool_decide (length ls = 0%nat)
  | None => false
  end.

Definition is_loading (s : QueryStatus) : bool :=
  match s with loading => true | _ => false end.

(** The two expressions of lines 140-172; a [null] renders nothing. *)
Definition loading_slot (st : State) : list Node :=
  if is_loading (status (locations st)) then [Div [Text "Loading!"]] else [].

Definition list_slot (st : State) : Node :=
  if negb (is_loading (status (locations st))) && data_length_is_0 (locations st)
  then Div [Text "Looks like you don't have any!"]
  else Div (location_rows st).

Definition list_region (st : State) : list Node :=
  loading_slot st ++ [list_slot st].

Definition HostedLocationsPlayground (st : State) : Node :=
  Fragment (
    [ Heading "Hosted Locations" "Augment your local storage with our cloud!"
        (Div [ Div [ Input (locationName st) (Some "My sick location")
                           locationName_onInput (isLoading st);
                     Button (createLocation_onClick st) (isLoading st)
                            [Text "Create Location"] ] ]) ]
    ++ list_region st
    ++ [ Div [ P [Text "Path to save when clicking 'Do the thing':"];
               Input (path st) None path_onInput (isLoading st) ] ]).

(** *** Reading a rendered tree *)

(** The [disabled] flags of the inputs and buttons of a tree, in document
    order. *)
Fixpoint controls (n : Node) : list bool :=
  match n with
  | Text _ => []
  | Div cs | H1 cs | P cs | Fragment cs => flat_map controls cs
  | Input _ _ _ d => [d]
  | Button _ d cs => d :: flat_map controls cs
  | Heading _ _ r => controls r
  end.

Definition has_label (label : string) (cs : list Node) : bool :=
  match cs with
  | [Text s] => bool_decide (s = label)
  | _ => false
  end.

(** The [onClick] handlers of the buttons of a tree whose label is the
    given text, in document order. *)
Fixpoint buttons (label : string) (n : Node) : list Handler :=
  match n with
  | Text _ | Input _ _ _ _ => []
  | Div cs | H1 cs | P cs | Fragment cs => flat_map (buttons label) cs
  | Button h _ cs =>
      if has_label label cs then [h] else flat_map (buttons label) cs
  | Heading _ _ r => buttons label r
  end.

(** The values and [onInput] handlers of the inputs of a tree, in document
    order. *)
Fixpoint inputs (n : Node) : list (string * (string → Handler)) :=
  match n with
  | Text _ => []
  | Div cs | H1 cs | P cs | Fragment cs | Button _ _ cs => flat_map inputs cs
  | Input v _ h _ => [(v, h)]
  | Heading _ _ r => inputs r
  end.

(** *** What the list region shows *)








(** *** Edits of the path field and updates of the list, over time *)

Inductive Event :=
| UserEdit (value : string)                       (* [onInput] of the path field *)
| ListUpdate (data : option (list CloudLocation)). (* [locations.data] changes *)

Definition with_data (d : option (list CloudLocation)) (st : State) : State :=
  with_locations {| status := status (locations st); data := d |} st.

Definition handle (e : Event) (st : State) : State :=
  match e with
  | UserEdit value => fst (run (path_onInput value) st)
  | ListUpdate d => with_data d st
  end.

(** After the render that follows a change of [path] or [locations.data]
    the effect runs; the result is the new state and whether the effect
    wrote the field. *)
Definition commit (st : State) : State * bool :=
  let h := useEffect st in
  (fst (run h st), bool_decide (h ≠ [])).

(** A run from a committed state: the state after each event, paired with
    whether the auto-fill wrote the field at that event. *)
Fixpoint trace (es : list Event) (st : State) : list (State * bool) :=
  match es with
  | [] => []
  | e :: rest =>
      let r := commit (handle e st) in
      r :: trace rest (fst r)
  end.

Definition final (es : list Event) (st : State) : State :=
  default st (last (map fst (trace es st))).

(** How many times the auto-fill wrote the field during a run. *)
Definition autofills (es : list Event) (st : State) : nat :=
  length (List.filter snd (trace es st)).

(** The mounted component: the effect has run once on the initial
    state. *)
Definition mounted : State := fst (commit initial).

(** An edit that leaves the field empty. *)
Definition emptying (e : Event) : bool :=
  match e with
  | UserEdit value => bool_decide (value = "")
  | ListUpdate _ => false
  end.

Definition is_list_update (e : Event) : bool :=
  match e with
  | UserEdit _ => false
  | ListUpdate _ => true
  end.

(** How many times the field is found empty during a run: at its start,
    and after each edit that empties it. *)
Definition emptyings (es : list Event) (st : State) : nat :=
  (if bool_decide (path st = "") then 1 else 0) + length (List.filter emptying es).

(** *** Names made of white space *)

(** A name is held as the bytes of its UTF-8 encoding.  White space is what
    [String.prototype.trim] strips: the white space and line terminator
    code points of the language. *)
Definition bytes (s : string) : list N :=
  map Ascii.N_of_ascii (String.list_ascii_of_string s).

(** U+0009 to U+000D and U+0020. *)
Definition is_white_space (b : N) : bool :=
  bool_decide (b ∈ [32; 9; 10; 11; 12; 13]%N).

(** U+00A0, encoded as C2 A0. *)
Definition is_white_space2 (b c : N) : bool :=
  (b =? 194)%N && (c =? 160)%N.

(** U+1680 (E1 9A 80); U+2000 to U+200A, U+2028, U+2029 and U+202F
    (E2 80 80 to 8A, A8, A9, AF); U+205F (E2 81 9F); U+3000 (E3 80 80);
    U+FEFF (EF BB BF). *)
Definition is_white_space3 (b c d : N) : bool :=
  ((b =? 225) && (c =? 154) && (d =? 128)
   || (b =? 226) && (c =? 128)
      && ((128 <=? d) && (d <=? 138) || (d =? 168) || (d =? 169) || (d =? 175))
   || (b =? 226) && (c =? 129) && (d =? 159)
   || (b =? 227) && (c =? 128) && (d =? 128)
   || (b =? 239) && (c =? 187) && (d =? 191))%N.

(** Every code point of the byte sequence is white space. *)
Fixpoint all_white_space (bs : list N) : bool :=
  match bs with
  | [] => true
  | b :: r =>
      if is_white_space b then all_white_space r
      else match r with
           | [] => false
           | c :: r1 =>
               if is_white_space2 b c then all_white_space r1
               else match r1 with
                    | [] => false
                    | d :: r2 =>
                        if is_white_space3 b c d then all_white_space r2
                        else false
                    end
           end
  end.

(** A name that is not empty and holds nothing but white space. *)
Definition white_space_only (s : string) : bool :=
  negb (bool_decide (s = "")) && all_white_space (bytes s).

(** A no-break space, U+00A0, and an ideographic space, U+3000. *)
Definition nbsp : string :=
  String (Ascii.ascii_of_N 194) (String (Ascii.ascii_of_N 160) "").
Definition ideographic_space : string :=
  String (Ascii.ascii_of_N 227)
    (String (Ascii.ascii_of_N 128) (String (Ascii.ascii_of_N 128) "")).

(** *** Some states *)

Definition ada : CloudLocation := {| id := "a1"; name := "Ada" |}.
Definition bob : CloudLocation := {| id := "b2"; name := "Bob" |}.

(** Two locations listed, nothing in flight. *)
Definition listed : State :=
  with_path (hello_path ada)
    (with_locations {| status := success; data := Some [ada; bob] |} initial).

(** The same while a create is in flight. *)
Definition creating : State :=
  with_createLocation in_flight (with_locationName "Carol" listed).


(** The user types [x] into the path field, then clears it, while one
    location is listed. *)
Definition clearing_the_field : list Event :=
  [ListUpdate (Some [ada]); UserEdit "x"; UserEdit ""].

End Playground.

(** ** The recent items card (RecentItems.tsx) *)

Module RecentItems.
Import Js.

Local Open Scope Z_scope.

(** *** [Date], as far as [new Date(0).toISOString()] needs it

    A date holds a time value: milliseconds since 1970-01-01T00:00:00Z, or
    none when the date is invalid. *)
Definition Date := option Z.

(** [new Date(ms)] for an integral [ms]: the time value is clipped to
    +-8.64e15 ms, outside of which the date is invalid. *)
Definition new_Date (ms : Z) : Date :=
  if Z.abs ms <=? 8640000000000000 then Some ms else None.

Definition msPerDay : Z := 86400000.

(** Year, month (1-12) and day of the month of a day number counted from
    the epoch, in the proleptic Gregorian calendar. *)
Definition civil_of_day (day : Z) : Z * Z * Z :=
  let z := day + 719468 in
  let era := z / 146097 in
  let doe := z - era * 146097 in
  let yoe := (doe - doe / 1460 + doe / 36524 - doe / 146096) / 365 in
  let doy := doe - (365 * yoe + yoe / 4 - yoe / 100) in
  let mp := (5 * doy + 2) / 153 in
  let d := doy - (153 * mp + 2) / 5 + 1 in
  let m := if mp <? 10 then mp + 3 else mp - 9 in
  let y := yoe + era * 400 + (if m <=? 2 then 1 else 0) in
  (y, m, d).

Definition digit (n : Z) : string :=
  String (Ascii.ascii_of_N (48 + Z.to_N (n mod 10))) "".

(** [n] in decimal, padded with zeros to [width] digits. *)
Fixpoint pad (width : nat) (n : Z) : string :=
  match width with
  | O => ""
  | S w => pad w (n / 10) +:+ digit n
  end.

(** Years 0 to 9999 print as four digits, the others as a sign and six. *)
Definition year_string (y : Z) : string :=
  if (0 <=? y) && (y <=? 9999) then pad 4 y
  else (if y <? 0 then "-" else "+") +:+ pad 6 (Z.abs y).

(** [Date.prototype.toISOString]: a RangeError for an invalid date,
    otherwise [YYYY-MM-DDTHH:mm:ss.sssZ] in UTC. *)
Definition toISOString (d : Date) : Completion string :=
  match d with
  | None => Throw
  | Some t =>
      let '(y, m, dd) := civil_of_day (t / msPerDay) in
      let ms := t mod msPerDay in
      Normal (year_string y +:+ "-" +:+ pad 2 m +:+ "-" +:+ pad 2 dd +:+ "T"
              +:+ pad 2 (ms / 3600000) +:+ ":" +:+ pad 2 (ms / 60000 mod 60) +:+ ":"
              +:+ pad 2 (ms / 1000 mod 60) +:+ "." +:+ pad 3 (ms mod 1000) +:+ "Z")
  end.

(** *** The arguments of [search.objects], as the card builds them *)

Record OrderOnly := { field : string; value : string }.

Inductive OrderAndPagination :=
| orderOnly (o : OrderOnly).

Record DateRange := { from : string }.

Record ObjectFilter := { dateAccessed : DateRange }.

Inductive SearchFilterArgs :=
| object (f : ObjectFilter).

Record ObjectSearchArgs := {
  take : Z;
  orderAndPagination : OrderAndPagination;
  filters : list SearchFilterArgs
}.

(** The key handed to [useLibraryQuery] (lines 6-15) *)
Definition recentItemsQuery : Completion (string * ObjectSearchArgs) :=
  bind (toISOString (new_Date 0)) (λ epoch,
    Normal ("search.objects",
            {| take := 6;
               orderAndPagination :=
                 orderOnly {| field := "dateAccessed"; value := "Desc" |};
               filters := [object {| dateAccessed := {| from := epoch |} |}] |})).

(** The props of the [ItemsCard] the component returns (lines 17-24) *)
Record ItemsCardProps := {
  title : string;
  query : string * ObjectSearchArgs;
  buttonText : string;
  buttonLink : string
}.

Definition RecentItemsCard : Completion ItemsCardProps :=
  bind recentItemsQuery (λ q,
    Normal {| title := "Recent Items"; query := q;
              buttonText := "See all recent items"; buttonLink := "/explorer" |}).

End RecentItems.

(** ** The playground in use: user actions, settled mutations, list updates *)

Module Interaction.
Import Playground.

(** The [onClick] handlers of the buttons with the given label, each with
    the button's [disabled] flag, in document order. *)
Fixpoint clickables (label : string) (n : Node) : list (Handler * bool) :=
  match n with
  | Text _ | Input _ _ _ _ => []
  | Div cs | H1 cs | P cs | Fragment cs => flat_map (clickables label) cs
  | Button h d cs =>
      if has_label label cs then [(h, d)] else flat_map (clickables label) cs
  | Heading _ _ r => clickables label r
  end.

(** The [onInput] handlers of the inputs, each with the input's [disabled]
    flag, in document order. *)
Fixpoint fields (n : Node) : list ((string → Handler) * bool) :=
  match n with
  | Text _ => []
  | Div cs | H1 cs | P cs | Fragment cs | Button _ _ cs => flat_map fields cs
  | Input _ _ h d => [(h, d)]
  | Heading _ _ r => fields r
  end.

(** What a user can do with the rendered playground. *)
Inductive Action :=
| TypeName (value : string)       (* input into the name field *)
| TypePath (value : string)       (* input into the path field *)
| ClickCreate
| ClickDelete (row : nat)
| ClickDoTheThing (row : nat).

(** The handler an action reaches in a tree, with the [disabled] flag of
    its control; none when the tree has no such control. *)
Definition target (a : Action) (tree : Node) : option (Handler * bool) :=
  match a with
  | TypeName value => (λ f, (fst f value, snd f)) <$> fields tree !! 0%nat
  | TypePath value => (λ f, (fst f value, snd f)) <$> fields tree !! 1%nat
  | ClickCreate => clickables "Create Location" tree !! 0%nat
  | ClickDelete row => clickables "Delete" tree !! row
  | ClickDoTheThing row => clickables "Do the thing" tree !! row
  end.

(** A control that is disabled delivers no event; the others run their
    handler. *)
Definition deliver (t : option (Handler * bool)) (st : State) : State * list Call :=
  match t with
  | Some (h, false) => run h st
  | Some (_, true) | None => (st, [])
  end.

Inductive Event :=
| User (a : Action)
| CreateSettled (o : Outcome CloudLocation)
| RemoveSettled (o : Outcome unit)
| DoTheThingSettled (o : Outcome unit)
| ListChanged (q : Query).

(** One event: the handler or callback runs, then the render that follows
    runs the auto-fill effect.  The result is the state the next render
    shows and the calls made, in order. *)
Definition step (e : Event) (st : State) : State * list Call :=
  let r := match e with
           | User a => deliver (target a (HostedLocationsPlayground st)) st
           | CreateSettled o => createLocation_settle o st
           | RemoveSettled o => removeLocation_settle o st
           | DoTheThingSettled o => doTheThing_settle o st
           | ListChanged q => (with_locations q st, [])
           end in
  (fst (commit (fst r)), snd r ++ useEffect (fst r)).

Fixpoint steps (es : list Event) (st : State) : State * list Call :=
  match es with
  | [] => (st, [])
  | e :: rest =>
      let r := step e st in
      let r' := steps rest (fst r) in
      (fst r', snd r ++ snd r')
  end.

(** The handler an action reaches, read off the state. *)
Definition handler_of (a : Action) (st : State) : option Handler :=
  match a with
  | TypeName value => Some (locationName_onInput value)
  | TypePath value => Some (path_onInput value)
  | ClickCreate => Some (createLocation_onClick st)
  | ClickDelete row =>
      (λ l, [removeLocation_mutate (id l)])
        <$> default [] (data (locations st)) !! row
  | ClickDoTheThing row =>
      (λ l, [doTheThing_mutate (id l) (path st)])
        <$> default [] (data (locations st)) !! row
  end.

(** How many of the three mutations are in flight. *)
Definition in_flight_count (st : State) : nat :=
  Nat.b2n (Mutation.isLoading (createLocation st))
  + Nat.b2n (Mutation.isLoading (removeLocation st))
  + Nat.b2n (Mutation.isLoading (doTheThing st)).

(** The auto-fill effect has nothing to do. *)
Definition settled (st : State) : Prop := useEffect st = [].

Definition is_toast (c : Call) : bool :=
  match c with
  | toast_success _ | toast_error _ => true
  | _ => false
  end.

Definition is_request (c : Call) : bool :=
  match c with
  | createLocation_mutate _ | removeLocation_mutate _ | doTheThing_mutate _ _ => true
  | _ => false
  end.

(** The events after which the list is refetched, and those after which a
    notification is shown. *)
Definition refetching (e : Event) : bool :=
  match e with
  | CreateSettled (Succeeded _) | RemoveSettled (Succeeded _) => true
  | _ => false
  end.

Definition notifying (e : Event) : bool :=
  match e with
  | DoTheThingSettled _ => true
  | _ => false
  end.

(** A call that is neither a refetch nor a notification. *)
Definition quiet (c : Call) : Prop :=
  c ≠ locations_refetch ∧ is_toast c = false.

(** The path a diagnostic request carries; none for the other calls. *)
Definition request_path (c : Call) : option string :=
  match c with
  | doTheThing_mutate _ p => Some p
  | _ => None
  end.

(** The event is the completion of a mutation that is in flight. *)
Definition settles (e : Event) (st : State) : bool :=
  match e with
  | CreateSettled _ => Mutation.isLoading (createLocation st)
  | RemoveSettled _ => Mutation.isLoading (removeLocation st)
  | DoTheThingSettled _ => Mutation.isLoading (doTheThing st)
  | User _ | ListChanged _ => false
  end.

(** A name typed while two locations are listed. *)
Definition typed : State := with_locationName "Carol" listed.

End Interaction.

(** ** The tags section of the landing page (tags.tsx) *)

Module Tags.

Record VideoInfo := { title : string; src : string; description : string }.

(** Lines 7-22 *)
Definition videos : list VideoInfo :=
  [ {| title := "Tag Assignment mode";
       src := "/videos/Spacedrive_tagmode.webm";
       description := "Assign tags to files and folders quickly and easily" |};
    {| title := "Contextual Tagging";
       src := "/videos/Spacedrive_tags.webm";
       description := "Tag files and folders directly from the right-click menu" |} ].

(** [React.useState<null | string>(null)] *)
Definition selectedVideo_initial : option string := None.

(** A string in a condition: [null] and the empty string are falsy. *)
Definition truthy (v : option string) : bool :=
  match v with
  | Some s => negb (bool_decide (s = ""))
  | None => false
  end.

(** One tile of the grid (lines 44-53): the props of the [Video], then the
    heading and the paragraph.  [onClick] holds the argument of the call to
    [setSelectedVideo]. *)
Record Tile := {
  key : string;
  layoutId : string;
  onClick : option string;
  video : VideoInfo;       (* [{...video}] *)
  h2 : string;
  p : string
}.

Definition tile (video : VideoInfo) : Tile :=
  {| key := src video;
     layoutId := "video-" +:+ src video;
     onClick := Some (src video);
     video := video;
     h2 := title video;
     p := description video |}.

(** The rendered section: the overlay player, when there is one, and the
    grid. *)
Record View := {
  overlay : option string;     (* [src] of the [SelectedVideo] *)
  grid : list Tile
}.

Definition Tags (selectedVideo : option string) : View :=
  {| overlay := if truthy selectedVideo then selectedVideo else None;
     grid := map tile videos |}.

End Tags.

(** * Properties *)

(** ** The account panel *)

Module AccountSpec.
Import Js Account.

Lemma strict_neq_str_false (x : option Value) (s : string) :
  strict_neq_str x s = false ↔ x = Some (JStr s).
Proof.
  destruct x as [[| | |s'| |]|]; simpl; try (split; [discriminate | congruence]).
  rewrite negb_false_iff, bool_decide_eq_true.
  split; [intros ->; reflexivity | congruence].
Qed.

Lemma get_not_null (d : Value) (k : string) :
  d ≠ JNull → ∃ x, get d k = Normal x.
Proof. destruct d; simpl; eauto; congruence. Qed.

Lemma Component_not_null (d : Value) (email : option Value) :
  d ≠ JNull → get d "email" = Normal email → Component d = Normal (profile_of email).
Proof.
  intros Hd He. destruct d; try congruence; simpl in *;
    inversion He; reflexivity.
Qed.

(** Whatever the fetch settles to, the component renders: no read of the
    stored value throws. *)
Lemma settled_view_total (f : Fetch) : ∃ v, settled_view f = Normal v.
Proof.
  unfold settled_view. generalize (useEffect userInfo_initial f).
  intros [| | | | |]; simpl; eauto.
Qed.

Lemma no_payload_logged_out (f : Fetch) :
  payload f = None → settled_view f = Normal logged_out.
Proof.
  destruct f as [|[st [d|]]]; simpl; try discriminate; reflexivity.
Qed.

Lemma null_payload_logged_out (f : Fetch) :
  payload f = Some JNull → settled_view f = Normal logged_out.
Proof.
  destruct f as [|[st [d|]]]; simpl; try discriminate.
  intros [= ->]. reflexivity.
Qed.

Lemma marker_logged_out (f : Fetch) (d : Value) :
  payload f = Some d → unauthorised d → settled_view f = Normal logged_out.
Proof.
  destruct f as [|[st [d'|]]]; simpl; try discriminate.
  intros [= ->] Hm. unfold settled_view, useEffect, then_callback; simpl.
  unfold unauthorised in Hm. rewrite Hm; simpl. reflexivity.
Qed.

Lemma other_payload_profile (f : Fetch) (d : Value) :
  payload f = Some d → d ≠ JNull → ¬ unauthorised d →
  ∃ email, get d "email" = Normal email
           ∧ settled_view f = Normal (profile_of email).
Proof.
  destruct f as [|[st [d'|]]]; simpl; try discriminate.
  intros [= ->] Hd Hm.
  destruct (get_not_null d "email" Hd) as [email He].
  destruct (get_not_null d "message" Hd) as [m Hg].
  exists email. split; [exact He|].
  unfold settled_view, useEffect, then_callback; simpl. rewrite Hg; simpl.
  destruct (strict_neq_str m "unauthorised") eqn:Hs.
  - simpl. apply Component_not_null; assumption.
  - apply strict_neq_str_false in Hs. subst m. contradiction.
Qed.

(** C1, as the claim states it, fails: a response that is not 2xx and
    whose JSON body is an object without the marker is shown as a profile
    (with no email), not as the logged-out view. *)
Lemma non_2xx_response_shows_profile :
  ¬ (∀ f : Fetch, non_2xx f → settled_view f = Normal logged_out).
Proof.
  intros H. specialize (H server_error eq_refl). discriminate H.
Qed.

(** C1 (amended): the view is decided by the parsed body alone.  When the
    fetch gives no payload (no response, or a body that is not JSON), a null
    payload, or a payload carrying the marker [message: "unauthorised"], the
    panel shows the logged-out view; for every other payload, whatever the
    status of the response, it shows the profile view, and the email shown
    is the payload's [email] field. *)
Theorem view_decided_by_payload (f : Fetch) :
  (payload f = None ∨ payload f = Some JNull
   ∨ (∃ d, payload f = Some d ∧ unauthorised d) →
   settled_view f = Normal logged_out)
  ∧ (∀ d, payload f = Some d → d ≠ JNull → ¬ unauthorised d →
     ∃ email, get d "email" = Normal email
              ∧ settled_view f = Normal (profile_of email)).
Proof.
  split.
  - intros [H | [H | (d & H & Hm)]].
    + apply no_payload_logged_out, H.
    + apply null_payload_logged_out, H.
    + eapply marker_logged_out; eassumption.
  - intros d. apply other_payload_profile.
Qed.

Lemma view_decided_by_payload_witness :
  settled_view Rejected = Normal logged_out
  ∧ ∃ email, email = Some (JStr "ada@example.com")
             ∧ settled_view signed_in = Normal (profile_of email).
Proof.
  split.
  - apply (proj1 (view_decided_by_payload Rejected)). left. reflexivity.
  - destruct (proj2 (view_decided_by_payload signed_in)
                (JObj [("email", JStr "ada@example.com");
                       ("id", JStr "7f3a");
                       ("timejoined", JNum 1700000000000);
                       ("roles", JArr [JStr "user"])])
                eq_refl) as (email & He & Hv).
    + discriminate.
    + unfold unauthorised. simpl. discriminate.
    + exists email. split; [|exact Hv]. simpl in He. congruence.
Defined.

End AccountSpec.

(** ** The hosted locations playground *)

Module PlaygroundSpec.
Import Playground.

(** *** Reading the rendered tree *)

(** The empty branch of the list is taken only when there are no rows, so
    whatever is collected from the region is collected from the rows. *)
Lemma region_flat_map {A} (f : Node → list A) (st : State) :
  (∀ s, f (Div [Text s]) = []) →
  (∀ cs, f (Div cs) = flat_map f cs) →
  flat_map f (list_region st) = flat_map f (location_rows st).
Proof.
  intros Htext Hdiv. unfold list_region, loading_slot, list_slot, location_rows,
    data_length_is_0.
  destruct (status (locations st)), (data (locations st)) as [[|l ls]|]; simpl;
    rewrite ?Htext, ?Hdiv, ?app_nil_r; reflexivity.
Qed.

Lemma controls_rows (st : State) (ls : list CloudLocation) :
  Forall (λ d, d = isLoading st) (flat_map controls (map (location_row st) ls)).
Proof.
  induction ls as [|l ls IH]; simpl; [constructor|].
  repeat constructor. exact IH.
Qed.

Lemma controls_render (st : State) :
  controls (HostedLocationsPlayground st)
  = isLoading st :: isLoading st
      :: flat_map controls (location_rows st) ++ [isLoading st].
Proof.
  unfold HostedLocationsPlayground.
  change (controls (Fragment ?cs)) with (flat_map controls cs).
  rewrite !flat_map_app, (region_flat_map controls) by reflexivity.
  simpl. rewrite ?app_nil_r. reflexivity.
Qed.

Lemma controls_follow_isLoading (st : State) :
  Forall (λ d, d = isLoading st) (controls (HostedLocationsPlayground st)).
Proof.
  rewrite controls_render. do 2 constructor; try reflexivity.
  apply Forall_app. split.
  - unfold location_rows. destruct (data (locations st)); [|constructor].
    apply controls_rows.
  - repeat constructor.
Qed.

Lemma buttons_rows (label : string) (st : State) (ls : list CloudLocation) :
  flat_map (buttons label) (map (location_row st) ls)
  = flat_map (λ l, (if bool_decide ("Delete" = label)
                    then [[removeLocation_mutate (id l)]] else [])
                   ++ (if bool_decide ("Do the thing" = label)
                       then [[doTheThing_mutate (id l) (path st)]] else [])) ls.
Proof.
  induction ls as [|l ls IH]; simpl; [reflexivity|].
  rewrite IH, !app_nil_r. reflexivity.
Qed.

Lemma buttons_render (label : string) (st : State) :
  buttons label (HostedLocationsPlayground st)
  = (if bool_decide ("Create Location" = label)
     then [createLocation_onClick st] else [])
    ++ flat_map (buttons label) (location_rows st).
Proof.
  unfold HostedLocationsPlayground.
  change (buttons label (Fragment ?cs)) with (flat_map (buttons label) cs).
  rewrite !flat_map_app, (region_flat_map (buttons label)) by reflexivity.
  simpl. rewrite ?app_nil_r. reflexivity.
Qed.

Lemma create_button (st : State) :
  buttons "Create Location" (HostedLocationsPlayground st)
  = [createLocation_onClick st].
Proof.
  rewrite buttons_render. unfold location_rows.
  destruct (data (locations st)) as [ls|]; [|reflexivity].
  rewrite buttons_rows. simpl.
  induction ls as [|l ls IH]; [reflexivity|]. simpl in *. exact IH.
Qed.

Lemma doTheThing_buttons (st : State) :
  buttons "Do the thing" (HostedLocationsPlayground st)
  = map (λ l, [doTheThing_mutate (id l) (path st)])
        (default [] (data (locations st))).
Proof.
  rewrite buttons_render. unfold location_rows.
  destruct (data (locations st)) as [ls|]; [|reflexivity].
  rewrite buttons_rows. simpl.
  induction ls as [|l ls IH]; [reflexivity|]. simpl in *. congruence.
Qed.

Lemma delete_buttons (st : State) :
  buttons "Delete" (HostedLocationsPlayground st)
  = map (λ l, [removeLocation_mutate (id l)])
        (default [] (data (locations st))).
Proof.
  rewrite buttons_render. unfold location_rows.
  destruct (data (locations st)) as [ls|]; [|reflexivity].
  rewrite buttons_rows. simpl.
  induction ls as [|l ls IH]; [reflexivity|]. simpl in *. congruence.
Qed.

Lemma inputs_render (st : State) :
  inputs (HostedLocationsPlayground st)
  = [(locationName st, locationName_onInput); (path st, path_onInput)].
Proof.
  unfold HostedLocationsPlayground.
  change (inputs (Fragment ?cs)) with (flat_map inputs cs).
  rewrite !flat_map_app, (region_flat_map inputs) by reflexivity.
  simpl. rewrite ?app_nil_r. unfold location_rows.
  destruct (data (locations st)) as [ls|]; [|reflexivity].
  induction ls as [|l ls IH]; [reflexivity|]. simpl in *. exact IH.
Qed.

Lemma controls_count (st : State) :
  length (controls (HostedLocationsPlayground st))
  = (length (inputs (HostedLocationsPlayground st))
     + length (buttons "Create Location" (HostedLocationsPlayground st))
     + length (buttons "Delete" (HostedLocationsPlayground st))
     + length (buttons "Do the thing" (HostedLocationsPlayground st)))%nat.
Proof.
  rewrite controls_render, inputs_render, create_button, delete_buttons,
    doTheThing_buttons.
  unfold location_rows. simpl. rewrite length_app, !length_map. simpl.
  destruct (data (locations st)) as [ls|]; simpl; [|reflexivity].
  induction ls as [|l ls IH]; simpl in *; lia.
Qed.

(** *** The busy flag *)

Lemma isLoading_true (st : State) :
  isLoading st = true
  ↔ Mutation.isLoading (createLocation st) = true
    ∨ Mutation.isLoading (removeLocation st) = true
    ∨ Mutation.isLoading (doTheThing st) = true.
Proof.
  unfold isLoading. rewrite !orb_true_iff. tauto.
Qed.

Lemma isLoading_false (st : State) :
  isLoading st = false
  ↔ Mutation.isLoading (createLocation st) = false
    ∧ Mutation.isLoading (removeLocation st) = false
    ∧ Mutation.isLoading (doTheThing st) = false.
Proof.
  unfold isLoading. rewrite !orb_false_iff. tauto.
Qed.

(** Calling [mutate] puts the playground in the busy state. *)
Lemma mutate_sets_isLoading (st : State) (c : Call) :
  (∃ n, c = createLocation_mutate n) ∨ (∃ i, c = removeLocation_mutate i)
  ∨ (∃ i p, c = doTheThing_mutate i p) →
  isLoading (exec c st) = true.
Proof.
  intros [[n ->] | [[i ->] | (i & p & ->)]]; unfold isLoading; simpl;
    rewrite ?orb_true_r; reflexivity.
Qed.

(** C3: while any of the create, remove or diagnostic mutations is in
    flight, every control of the playground (the two text inputs, the
    Create Location button, and the Delete and Do-the-thing button of every
    row) is disabled; when none is in flight, every one of them is enabled.
    The controls counted are exactly these. *)
Theorem controls_disabled_iff_mutation_in_flight (st : State) :
  let tree := HostedLocationsPlayground st in
  (Mutation.isLoading (createLocation st) = true
   ∨ Mutation.isLoading (removeLocation st) = true
   ∨ Mutation.isLoading (doTheThing st) = true →
   Forall (λ disabled, disabled = true) (controls tree))
  ∧ (Mutation.isLoading (createLocation st) = false
     ∧ Mutation.isLoading (removeLocation st) = false
     ∧ Mutation.isLoading (doTheThing st) = false →
     Forall (λ disabled, disabled = false) (controls tree))
  ∧ length (controls tree)
    = (length (inputs tree) + length (buttons "Create Location" tree)
       + length (buttons "Delete" tree) + length (buttons "Do the thing" tree))%nat
  ∧ length (inputs tree) = 2%nat
  ∧ length (buttons "Create Location" tree) = 1%nat
  ∧ length (buttons "Delete" tree) = length (default [] (data (locations st)))
  ∧ length (buttons "Do the thing" tree) = length (default [] (data (locations st))).
Proof.
  cbv zeta. repeat split.
  - intros H. apply isLoading_true in H.
    eapply Forall_impl; [apply controls_follow_isLoading|].
    simpl. congruence.
  - intros H. apply isLoading_false in H.
    eapply Forall_impl; [apply controls_follow_isLoading|].
    simpl. congruence.
  - apply controls_count.
  - rewrite inputs_render. reflexivity.
  - rewrite create_button. reflexivity.
  - rewrite delete_buttons. apply length_map.
  - rewrite doTheThing_buttons. apply length_map.
Qed.

Lemma controls_disabled_iff_mutation_in_flight_witness :
  Forall (λ disabled, disabled = true) (controls (HostedLocationsPlayground creating))
  ∧ Forall (λ disabled, disabled = false) (controls (HostedLocationsPlayground listed)).
Proof.
  split.
  - apply (proj1 (controls_disabled_iff_mutation_in_flight creating)).
    left. reflexivity.
  - apply (proj1 (proj2 (controls_disabled_iff_mutation_in_flight listed))).
    repeat split; reflexivity.
Defined.

(** *** The create mutation *)

(** C4: when the create-location mutation succeeds, the name input is
    reset to the empty string and the locations list is refetched exactly
    once. *)
Theorem create_success_clears_name_and_refetches_once
    (st : State) (created : CloudLocation) :
  let r := createLocation_settle (Succeeded created) st in
  locationName (fst r) = ""
  ∧ count_occ Call_eq_dec (snd r) locations_refetch = 1%nat.
Proof.
  split; reflexivity.
Qed.

Lemma createLocation_onClick_calls (st : State) :
  snd (run (createLocation_onClick st) st)
  = if bool_decide (locationName st = "") then []
    else [createLocation_mutate (locationName st)].
Proof. reflexivity. Qed.

(** C5: clicking Create Location while the name input holds the empty
    string issues no request (the handler makes no call at all) and leaves
    the name input, and the rest of the state, as it was. *)
Theorem create_click_with_empty_name_is_noop (st : State) :
  locationName st = "" →
  ∃ onClick,
    buttons "Create Location" (HostedLocationsPlayground st) = [onClick]
    ∧ snd (run onClick st) = []
    ∧ locationName (fst (run onClick st)) = locationName st
    ∧ fst (run onClick st) = st.
Proof.
  intros Hname. exists (createLocation_onClick st).
  split; [apply create_button|].
  unfold createLocation_onClick. rewrite bool_decide_eq_true_2 by exact Hname.
  repeat split.
Qed.

Lemma create_click_with_empty_name_is_noop_witness :
  ∃ onClick,
    buttons "Create Location" (HostedLocationsPlayground listed) = [onClick]
    ∧ snd (run onClick listed) = []
    ∧ locationName (fst (run onClick listed)) = locationName listed
    ∧ fst (run onClick listed) = listed.
Proof.
  apply (create_click_with_empty_name_is_noop listed). reflexivity.
Defined.

Lemma white_space_only_not_empty (s : string) :
  white_space_only s = true → s ≠ "".
Proof.
  unfold white_space_only. rewrite andb_true_iff, negb_true_iff, bool_decide_eq_false.
  tauto.
Qed.

(** *** The diagnostic mutation *)

(** C8: when the diagnostic mutation succeeds a success notification is
    shown; when it fails an error notification is shown whose text is the
    message of the failure. *)
Theorem doTheThing_completion_notifies (st : State) :
  snd (doTheThing_settle (Succeeded tt) st) = [toast_success "Uploaded file!"]
  ∧ ∀ err, snd (doTheThing_settle (Failed err) st) = [toast_error (message err)].
Proof.
  split; [reflexivity | intros err; reflexivity].
Qed.

(** C10: there is one path value for all rows: the Do-the-thing button of
    the row of any listed location issues the diagnostic mutation with that
    location's id and the current value of the one path field, which is the
    value the path input shows. *)
Theorem doTheThing_click_uses_shared_path
    (st : State) (ls : list CloudLocation) (i : nat) (location : CloudLocation) :
  data (locations st) = Some ls →
  ls !! i = Some location →
  ∃ onClick,
    buttons "Do the thing" (HostedLocationsPlayground st) !! i = Some onClick
    ∧ snd (run onClick st) = [doTheThing_mutate (id location) (path st)]
    ∧ inputs (HostedLocationsPlayground st) !! 1%nat = Some (path st, path_onInput).
Proof.
  intros Hdata Hi. exists [doTheThing_mutate (id location) (path st)].
  rewrite doTheThing_buttons, inputs_render, Hdata. simpl.
  rewrite list_lookup_fmap, Hi. repeat split.
Qed.

Lemma doTheThing_click_uses_shared_path_witness :
  ∃ onClick,
    buttons "Do the thing" (HostedLocationsPlayground listed) !! 1%nat = Some onClick
    ∧ snd (run onClick listed) = [doTheThing_mutate "b2" (path listed)]
    ∧ inputs (HostedLocationsPlayground listed) !! 1%nat
      = Some (path listed, path_onInput).
Proof.
  apply (doTheThing_click_uses_shared_path listed [ada; bob] 1 bob); reflexivity.
Defined.

(** *** The list region *)






(** *** The auto-fill of the path field *)

Lemma hello_path_not_empty (l : CloudLocation) : hello_path l ≠ "".
Proof. unfold hello_path. simpl. discriminate. Qed.

Lemma commit_fired (st : State) :
  snd (commit st) = true
  ↔ path st = "" ∧ is_Some (first_location (locations st)).
Proof.
  unfold commit, useEffect. simpl.
  destruct (decide (path st = "")) as [Hp|Hp].
  - rewrite (bool_decide_eq_true_2 _ Hp).
    destruct (first_location (locations st)) as [l|]; simpl.
    + split; [intros _; split; [exact Hp | eauto] | reflexivity].
    + split; [discriminate | intros [_ [x Hx]]; discriminate Hx].
  - rewrite (bool_decide_eq_false_2 _ Hp). simpl.
    split; [discriminate | intros [H _]; contradiction].
Qed.

Lemma commit_fills (st : State) (l : CloudLocation) :
  path st = "" → first_location (locations st) = Some l →
  fst (commit st) = with_path (hello_path l) st.
Proof.
  intros Hp Hl. unfold commit, useEffect.
  rewrite bool_decide_eq_true_2, Hl by exact Hp. reflexivity.
Qed.

Lemma commit_keeps (st : State) :
  path st ≠ "" → commit st = (st, false).
Proof.
  intros Hp. unfold commit, useEffect.
  rewrite bool_decide_eq_false_2 by exact Hp. reflexivity.
Qed.

Lemma commit_path (st : State) :
  path (fst (commit st)) = path st ∨ path st = "" ∧ snd (commit st) = true.
Proof.
  destruct (decide (path st = "")) as [Hp|Hp].
  - destruct (first_location (locations st)) as [l|] eqn:Hl.
    + right. split; [exact Hp|]. apply commit_fired. eauto.
    + left. unfold commit, useEffect.
      rewrite (bool_decide_eq_true_2 _ Hp), Hl. reflexivity.
  - left. rewrite (commit_keeps st Hp). reflexivity.
Qed.

(** One run of the effect is enough: the render that follows its write
    finds the field filled and the effect does nothing. *)
Lemma commit_stable (st : State) :
  commit (fst (commit st)) = (fst (commit st), false).
Proof.
  destruct (decide (path st = "")) as [Hp|Hp].
  - destruct (first_location (locations st)) as [l|] eqn:Hl.
    + apply commit_keeps. rewrite (commit_fills st l Hp Hl). simpl.
      apply hello_path_not_empty.
    + unfold commit, useEffect.
      rewrite (bool_decide_eq_true_2 _ Hp), Hl. simpl.
      rewrite (bool_decide_eq_true_2 _ Hp), Hl. reflexivity.
  - rewrite (commit_keeps st Hp). simpl. apply commit_keeps, Hp.
Qed.

Lemma commit_fired_filled (st : State) :
  snd (commit st) = true → path (fst (commit st)) ≠ "".
Proof.
  intros H. apply commit_fired in H as [Hp [l Hl]].
  rewrite (commit_fills st l Hp Hl). simpl. apply hello_path_not_empty.
Qed.

Lemma autofills_cons (e : Event) (es : list Event) (st : State) :
  autofills (e :: es) st
  = ((if snd (commit (handle e st)) then 1 else 0)
     + autofills es (fst (commit (handle e st))))%nat.
Proof.
  unfold autofills.
  change (trace (e :: es) st)
    with (commit (handle e st) :: trace es (fst (commit (handle e st)))).
  cbn [List.filter]. destruct (snd (commit (handle e st))); reflexivity.
Qed.

Lemma handle_path (e : Event) (st : State) :
  path (handle e st) = match e with
                       | UserEdit value => value
                       | ListUpdate _ => path st
                       end.
Proof. destruct e; reflexivity. Qed.

Lemma handle_empty_path (e : Event) (st : State) :
  path (handle e st) = "" →
  (1 ≤ (if bool_decide (path st = "") then 1 else 0)
       + (if emptying e then 1 else 0))%nat.
Proof.
  rewrite handle_path. destruct e as [value|d]; simpl; intros H.
  - rewrite (bool_decide_eq_true_2 _ H). lia.
  - rewrite (bool_decide_eq_true_2 _ H). lia.
Qed.

(** Each write of the auto-fill uses up one emptiness of the field. *)
Lemma step_budget (e : Event) (st : State) :
  ((if snd (commit (handle e st)) then 1 else 0)
   + (if bool_decide (path (fst (commit (handle e st))) = "") then 1 else 0)
   ≤ (if bool_decide (path st = "") then 1 else 0)
     + (if emptying e then 1 else 0))%nat.
Proof.
  pose proof (handle_empty_path e st) as Hbudget.
  destruct (snd (commit (handle e st))) eqn:Hfired.
  - rewrite (bool_decide_eq_false_2 _ (commit_fired_filled _ Hfired)).
    apply commit_fired in Hfired as [Hp _]. specialize (Hbudget Hp). lia.
  - destruct (commit_path (handle e st)) as [Hsame | [_ Hc]]; [|congruence].
    rewrite Hsame. destruct (decide (path (handle e st) = "")) as [Hp|Hp].
    + rewrite (bool_decide_eq_true_2 _ Hp). specialize (Hbudget Hp). lia.
    + rewrite (bool_decide_eq_false_2 _ Hp). lia.
Qed.

(** The auto-fill writes at most once for each time the field is found
    empty. *)
Lemma autofills_le_emptyings (es : list Event) (st : State) :
  (autofills es st ≤ emptyings es st)%nat.
Proof.
  revert st. induction es as [|e es IH]; intros st.
  - unfold autofills, emptyings. simpl. lia.
  - rewrite autofills_cons. specialize (IH (fst (commit (handle e st)))).
    pose proof (step_budget e st) as Hstep.
    unfold emptyings in *. cbn [List.filter].
    destruct (emptying e); cbn [length]; lia.
Qed.

Lemma final_cons (e : Event) (es : list Event) (st : State) :
  final (e :: es) st = final es (fst (commit (handle e st))).
Proof.
  unfold final.
  change (trace (e :: es) st)
    with (commit (handle e st) :: trace es (fst (commit (handle e st)))).
  generalize (commit (handle e st)). intros r.
  destruct (trace es (fst r)) as [|r' rs]; [reflexivity|].
  cbn [map last].
  destruct (last (fst r' :: map fst rs)) as [x|] eqn:Hlast; [reflexivity|].
  apply last_None in Hlast. discriminate Hlast.
Qed.

(** Updates of the list leave a field that is not empty alone. *)
Lemma list_updates_keep_path (es : list Event) (st : State) :
  path st ≠ "" → forallb is_list_update es = true →
  path (final es st) = path st ∧ autofills es st = 0%nat.
Proof.
  revert st. induction es as [|e es IH]; intros st Hp Hes.
  - split; reflexivity.
  - simpl in Hes. apply andb_true_iff in Hes as [He Hes].
    destruct e as [value|d]; [discriminate He|].
    rewrite final_cons, autofills_cons.
    rewrite (commit_keeps (handle (ListUpdate d) st)) by exact Hp.
    simpl. destruct (IH (with_data d st) Hp Hes) as [H1 H2].
    split; [exact H1 | exact H2].
Qed.

(** C2, as the claim states it, fails: with one location listed, a user
    who types into the path field and then clears it finds the field filled
    again.  The auto-fill has then written twice, the second time over an
    edit of the user. *)
Lemma autofill_overwrites_cleared_field :
  autofills clearing_the_field mounted = 2%nat
  ∧ path (final clearing_the_field mounted) = "location/a1/hello.txt"
  ∧ ¬ (∀ es st, (autofills es st ≤ 1)%nat)
  ∧ ¬ (∀ st value, path (fst (commit (handle (UserEdit value) st))) = value).
Proof.
  repeat split.
  - intros H. specialize (H clearing_the_field mounted).
    vm_compute in H. lia.
  - intros H. specialize (H listed ""). discriminate H.
Qed.

(** C2 (amended): along every sequence of user edits and list updates,
    the auto-fill writes the path field exactly when, after an event, the
    field is empty and the list has a first location, and it then sets the
    field to [location/{id}/hello.txt] for that location.  A field that is
    not empty is never overwritten: an edit to a non-empty value stays, and
    list updates leave it alone.  The auto-fill writes at most once for each
    time the field is found empty, at the start or after an edit that
    empties it. *)
Theorem autofill_writes_only_an_empty_field (st : State) (es : list Event) :
  (∀ e,
     let st1 := handle e st in
     (snd (commit st1) = true
      ↔ path st1 = "" ∧ is_Some (first_location (locations st1)))
     ∧ (∀ l, path st1 = "" → first_location (locations st1) = Some l →
             path (fst (commit st1)) = hello_path l)
     ∧ (path st1 ≠ "" → commit st1 = (st1, false)))
  ∧ (∀ value, value ≠ "" →
       path (fst (commit (handle (UserEdit value) st))) = value)
  ∧ (path st ≠ "" → forallb is_list_update es = true →
     path (final es st) = path st ∧ autofills es st = 0%nat)
  ∧ (autofills es st ≤ emptyings es st)%nat.
Proof.
  split; [|split; [|split]].
  - intros e st1. split; [apply commit_fired|]. split.
    + intros l Hp Hl. rewrite (commit_fills _ l Hp Hl). reflexivity.
    + apply commit_keeps.
  - intros value Hv. rewrite commit_keeps; [reflexivity | exact Hv].
  - apply list_updates_keep_path.
  - apply autofills_le_emptyings.
Qed.

Lemma autofill_writes_only_an_empty_field_witness :
  path (fst (commit (handle (ListUpdate (Some [ada; bob])) mounted)))
  = "location/a1/hello.txt"
  ∧ path (fst (commit (handle (UserEdit "notes.txt") listed))) = "notes.txt"
  ∧ path (final [ListUpdate (Some [bob]); ListUpdate None] listed) = path listed.
Proof.
  pose proof (autofill_writes_only_an_empty_field mounted []) as (Hstep & _).
  pose proof (autofill_writes_only_an_empty_field listed
                [ListUpdate (Some [bob]); ListUpdate None]) as (_ & Hedit & Hkeep & _).
  split; [|split].
  - apply (proj1 (proj2 (Hstep (ListUpdate (Some [ada; bob])))) ada); reflexivity.
  - apply Hedit. discriminate.
  - apply Hkeep; [discriminate | reflexivity].
Defined.

End PlaygroundSpec.

(** ** The recent items card *)

Module RecentItemsSpec.
Import Js RecentItems.

(** The epoch is a valid date and prints as the first instant of 1970. *)
Lemma epoch_toISOString :
  toISOString (new_Date 0) = Normal "1970-01-01T00:00:00.000Z".
Proof. vm_compute. reflexivity. Qed.

(** A valid date always prints. *)
Lemma toISOString_valid (ms : Z) :
  (Z.abs ms <= 8640000000000000)%Z → ∃ s, toISOString (new_Date ms) = Normal s.
Proof.
  intros H. unfold new_Date.
  destruct (Z.leb_spec (Z.abs ms) 8640000000000000) as [_|Hgt]; [|lia].
  unfold toISOString. destruct (civil_of_day (ms / msPerDay)) as [[y m] d].
  eauto.
Qed.

(** C6: the card queries [search.objects] with a result limit of 6, an
    ordering by [dateAccessed], descending, and one filter, on the object's
    [dateAccessed], whose lower bound is the epoch start, [new Date(0)], as
    an ISO string; this query is the one handed to the items card. *)
Theorem recent_items_query_parameters :
  ∃ epoch args,
    toISOString (new_Date 0) = Normal epoch
    ∧ epoch = "1970-01-01T00:00:00.000Z"
    ∧ recentItemsQuery = Normal ("search.objects", args)
    ∧ take args = 6%Z
    ∧ orderAndPagination args
      = orderOnly {| field := "dateAccessed"; value := "Desc" |}
    ∧ filters args = [object {| dateAccessed := {| from := epoch |} |}]
    ∧ ∃ props, RecentItemsCard = Normal props
               ∧ query props = ("search.objects", args).
Proof.
  eexists _, _. split; [apply epoch_toISOString|].
  split; [reflexivity|].
  unfold RecentItemsCard, recentItemsQuery. rewrite epoch_toISOString. simpl.
  repeat split. eexists. split; reflexivity.
Qed.

End RecentItemsSpec.

(** * Further properties *)

(** ** The account panel: the heading and the body agree *)

Module AccountExtra.
Import Js Account.

(** X1: whatever value is stored, the panel renders without throwing, and
    its two conditionals agree: the logout button is in the heading exactly
    when the body is the profile, and the body is the auth tabs exactly when
    the stored value is null. *)
Theorem logout_button_iff_profile (userInfo : Value) :
  ∃ v, Component userInfo = Normal v
       ∧ (logout_button v = true ↔ ∃ email, body v = Profile email)
       ∧ (logout_button v = false ↔ body v = Tabs)
       ∧ (body v = Tabs ↔ userInfo = JNull).
Proof.
  destruct userInfo; simpl; eexists; (split; [reflexivity|]); simpl;
    repeat split; intros; try discriminate; try congruence; eauto;
    try (destruct H as [? H]; discriminate H).
Qed.

End AccountExtra.

(** ** The playground: rows, the effect, the template *)

Module PlaygroundExtra.
Import Playground.

(** X2: the Delete button of the row of any listed location issues the
    remove mutation with that location's id and nothing else; when a remove
    succeeds the list is refetched exactly once and neither input changes;
    when it fails no call is made at all. *)
Theorem delete_click_removes_its_row
    (st : State) (ls : list CloudLocation) (i : nat) (location : CloudLocation) :
  data (locations st) = Some ls →
  ls !! i = Some location →
  (∃ onClick,
     buttons "Delete" (HostedLocationsPlayground st) !! i = Some onClick
     ∧ snd (run onClick st) = [removeLocation_mutate (id location)]
     ∧ locationName (fst (run onClick st)) = locationName st
     ∧ path (fst (run onClick st)) = path st)
  ∧ (∀ st',
       let r := removeLocation_settle (Succeeded tt) st' in
       count_occ Call_eq_dec (snd r) locations_refetch = 1%nat
       ∧ locationName (fst r) = locationName st'
       ∧ path (fst r) = path st')
  ∧ (∀ st' err, snd (removeLocation_settle (Failed err) st') = []).
Proof.
  intros Hdata Hi. split; [|split].
  - exists [removeLocation_mutate (id location)].
    rewrite PlaygroundSpec.delete_buttons, Hdata. simpl.
    rewrite list_lookup_fmap, Hi. repeat split.
  - intros st'. repeat split.
  - reflexivity.
Qed.

Lemma delete_click_removes_its_row_witness :
  ∃ onClick,
    buttons "Delete" (HostedLocationsPlayground listed) !! 1%nat = Some onClick
    ∧ snd (run onClick listed) = [removeLocation_mutate "b2"]
    ∧ locationName (fst (run onClick listed)) = locationName listed
    ∧ path (fst (run onClick listed)) = path listed.
Proof.
  apply (proj1 (delete_click_removes_its_row listed [ada; bob] 1 bob
                  eq_refl eq_refl)).
Defined.

Lemma useEffect_after_commit (st : State) : useEffect (fst (commit st)) = [].
Proof.
  pose proof (PlaygroundSpec.commit_stable st) as Hstable.
  destruct (useEffect (fst (commit st))) as [|c cs] eqn:He; [reflexivity|].
  unfold commit at 1 in Hstable. rewrite He in Hstable.
  inversion Hstable.
Qed.

(** X3: the auto-fill effect comes to rest after one run: the render that
    follows its write runs the effect again, which then changes nothing.
    In the state it leaves, the path field is empty only when no location is
    listed. *)
Theorem autofill_effect_settles (st : State) :
  let st' := fst (commit st) in
  commit st' = (st', false)
  ∧ useEffect st' = []
  ∧ (path st' = "" → first_location (locations st') = None)
  ∧ locations st' = locations st.
Proof.
  cbv zeta. pose proof (PlaygroundSpec.commit_stable st) as Hstable.
  pose proof (useEffect_after_commit st) as Heff.
  split; [exact Hstable|]. split; [exact Heff|]. split.
  - intros Hp. unfold useEffect in Heff.
    rewrite (bool_decide_eq_true_2 _ Hp) in Heff.
    destruct (first_location (locations (fst (commit st)))); [discriminate|].
    reflexivity.
  - unfold commit, useEffect.
    destruct (bool_decide (path st = "")); [|reflexivity].
    destruct (first_location (locations st)); reflexivity.
Qed.

Lemma length_append (s t : string) :
  String.length (s +:+ t) = (String.length s + String.length t)%nat.
Proof. induction s as [|a s IH]; simpl; [reflexivity | rewrite IH; reflexivity]. Qed.

Lemma append_cancel_r (s1 s2 t : string) : s1 +:+ t = s2 +:+ t → s1 = s2.
Proof.
  revert s2. induction s1 as [|a s1 IH]; intros [|b s2] H.
  - reflexivity.
  - apply (f_equal String.length) in H. rewrite !length_append in H.
    simpl in H. lia.
  - apply (f_equal String.length) in H. rewrite !length_append in H.
    simpl in H. lia.
  - simpl in H. injection H as -> H. f_equal. apply IH, H.
Qed.

(** X4: the auto-filled path names its location: two locations get the
    same path only when they have the same id, and the path is never
    empty. *)
Theorem hello_path_names_the_location (l1 l2 : CloudLocation) :
  (hello_path l1 = hello_path l2 ↔ id l1 = id l2) ∧ hello_path l1 ≠ "".
Proof.
  split; [split|].
  - unfold hello_path. intros H.
    apply (inj (String.append "location/")) in H.
    apply append_cancel_r in H. exact H.
  - unfold hello_path. intros ->. reflexivity.
  - apply PlaygroundSpec.hello_path_not_empty.
Qed.

End PlaygroundExtra.

(** ** The playground in use *)

Module InteractionSpec.
Import Playground Interaction.

(** *** What the rendered controls are *)

Lemma clickables_rows (label : string) (st : State) (ls : list CloudLocation) :
  flat_map (clickables label) (map (location_row st) ls)
  = flat_map (λ l, (if bool_decide ("Delete" = label)
                    then [([removeLocation_mutate (id l)], isLoading st)] else [])
                   ++ (if bool_decide ("Do the thing" = label)
                       then [([doTheThing_mutate (id l) (path st)], isLoading st)]
                       else [])) ls.
Proof.
  induction ls as [|l ls IH]; simpl; [reflexivity|].
  rewrite IH, !app_nil_r. reflexivity.
Qed.

Lemma clickables_render (label : string) (st : State) :
  clickables label (HostedLocationsPlayground st)
  = (if bool_decide ("Create Location" = label)
     then [(createLocation_onClick st, isLoading st)] else [])
    ++ flat_map (clickables label) (location_rows st).
Proof.
  unfold HostedLocationsPlayground.
  change (clickables label (Fragment ?cs)) with (flat_map (clickables label) cs).
  rewrite !flat_map_app, (PlaygroundSpec.region_flat_map (clickables label))
    by reflexivity.
  simpl. rewrite ?app_nil_r. reflexivity.
Qed.

Lemma fields_rows (st : State) (ls : list CloudLocation) :
  flat_map fields (map (location_row st) ls) = [].
Proof. induction ls as [|l ls IH]; simpl; [reflexivity | exact IH]. Qed.

Lemma fields_render (st : State) :
  fields (HostedLocationsPlayground st)
  = [(locationName_onInput, isLoading st); (path_onInput, isLoading st)].
Proof.
  unfold HostedLocationsPlayground.
  change (fields (Fragment ?cs)) with (flat_map fields cs).
  rewrite !flat_map_app, (PlaygroundSpec.region_flat_map fields) by reflexivity.
  simpl. rewrite ?app_nil_r. unfold location_rows.
  destruct (data (locations st)) as [ls|]; [|reflexivity].
  rewrite fields_rows. reflexivity.
Qed.

Lemma create_clickable (st : State) :
  clickables "Create Location" (HostedLocationsPlayground st)
  = [(createLocation_onClick st, isLoading st)].
Proof.
  rewrite clickables_render. unfold location_rows.
  destruct (data (locations st)) as [ls|]; [|reflexivity].
  rewrite clickables_rows. simpl.
  induction ls as [|l ls IH]; [reflexivity|]. simpl in *. exact IH.
Qed.

Lemma delete_clickables (st : State) :
  clickables "Delete" (HostedLocationsPlayground st)
  = map (λ l, ([removeLocation_mutate (id l)], isLoading st))
        (default [] (data (locations st))).
Proof.
  rewrite clickables_render. unfold location_rows.
  destruct (data (locations st)) as [ls|]; [|reflexivity].
  rewrite clickables_rows. simpl.
  induction ls as [|l ls IH]; [reflexivity|]. simpl in *. congruence.
Qed.

Lemma doTheThing_clickables (st : State) :
  clickables "Do the thing" (HostedLocationsPlayground st)
  = map (λ l, ([doTheThing_mutate (id l) (path st)], isLoading st))
        (default [] (data (locations st))).
Proof.
  rewrite clickables_render. unfold location_rows.
  destruct (data (locations st)) as [ls|]; [|reflexivity].
  rewrite clickables_rows. simpl.
  induction ls as [|l ls IH]; [reflexivity|]. simpl in *. congruence.
Qed.

(** Every action reaches the handler read off the state, on a control
    whose [disabled] flag is the busy flag. *)
Lemma target_render (a : Action) (st : State) :
  target a (HostedLocationsPlayground st)
  = (λ h, (h, isLoading st)) <$> handler_of a st.
Proof.
  destruct a as [value|value| |row|row]; unfold target, handler_of.
  - rewrite fields_render. reflexivity.
  - rewrite fields_render. reflexivity.
  - rewrite create_clickable. reflexivity.
  - rewrite delete_clickables, list_lookup_fmap.
    destruct (default [] (data (locations st)) !! row); reflexivity.
  - rewrite doTheThing_clickables, list_lookup_fmap.
    destruct (default [] (data (locations st)) !! row); reflexivity.
Qed.

Lemma deliver_render (a : Action) (st : State) :
  deliver (target a (HostedLocationsPlayground st)) st
  = if isLoading st then (st, [])
    else match handler_of a st with
         | Some h => run h st
         | None => (st, [])
         end.
Proof.
  rewrite target_render. destruct (handler_of a st) as [h|]; simpl.
  - destruct (isLoading st); reflexivity.
  - destruct (isLoading st); reflexivity.
Qed.

(** *** What the effect leaves alone *)

Lemma commit_as_with_path (st : State) :
  ∃ p, fst (commit st) = with_path p st.
Proof.
  unfold commit, useEffect.
  destruct (bool_decide (path st = "")).
  - destruct (first_location (locations st)) as [l|]; simpl.
    + eexists. reflexivity.
    + exists (path st). destruct st; reflexivity.
  - exists (path st). destruct st; reflexivity.
Qed.

Lemma commit_in_flight_count (st : State) :
  in_flight_count (fst (commit st)) = in_flight_count st.
Proof. destruct (commit_as_with_path st) as [p ->]. reflexivity. Qed.

Lemma commit_isLoading (st : State) :
  isLoading (fst (commit st)) = isLoading st.
Proof. destruct (commit_as_with_path st) as [p ->]. reflexivity. Qed.

Lemma commit_settled (st : State) : settled st → commit st = (st, false).
Proof. unfold settled, commit. intros ->. reflexivity. Qed.

Lemma settled_step (e : Event) (st : State) : settled (fst (step e st)).
Proof.
  unfold step. simpl. apply PlaygroundExtra.useEffect_after_commit.
Qed.

(** *** A busy playground takes no input *)

(** X5: while any mutation is in flight no user action gets through: no
    typing changes an input and no click issues a request.  Once the effect
    has come to rest, the action leaves the state exactly as it was. *)
Theorem busy_playground_ignores_user (st : State) (a : Action) :
  isLoading st = true →
  deliver (target a (HostedLocationsPlayground st)) st = (st, [])
  ∧ (settled st → step (User a) st = (st, [])).
Proof.
  intros Hbusy.
  assert (Hd : deliver (target a (HostedLocationsPlayground st)) st = (st, [])).
  { rewrite deliver_render, Hbusy. reflexivity. }
  split; [exact Hd|].
  intros Hs. unfold step. rewrite Hd. cbn [fst snd].
  rewrite (commit_settled st Hs). unfold settled in Hs. rewrite Hs. reflexivity.
Qed.

Lemma busy_playground_ignores_user_witness :
  step (User (TypeName "Dora")) creating = (creating, [])
  ∧ step (User (ClickDelete 0)) creating = (creating, []).
Proof.
  split.
  - apply (proj2 (busy_playground_ignores_user creating (TypeName "Dora") eq_refl)).
    reflexivity.
  - apply (proj2 (busy_playground_ignores_user creating (ClickDelete 0) eq_refl)).
    reflexivity.
Defined.

(** *** At most one mutation in flight *)

Ltac case_flags st :=
  destruct (Mutation.isLoading (createLocation st)),
    (Mutation.isLoading (removeLocation st)),
    (Mutation.isLoading (doTheThing st));
  simpl; try lia; try congruence.

Lemma idle_count (st : State) : isLoading st = false → in_flight_count st = 0%nat.
Proof.
  unfold isLoading, in_flight_count.
  destruct (Mutation.isLoading (createLocation st)),
    (Mutation.isLoading (removeLocation st)),
    (Mutation.isLoading (doTheThing st)); simpl; congruence.
Qed.

Lemma busy_count (st : State) : isLoading st = true → (1 ≤ in_flight_count st)%nat.
Proof.
  unfold isLoading, in_flight_count.
  destruct (Mutation.isLoading (createLocation st)),
    (Mutation.isLoading (removeLocation st)),
    (Mutation.isLoading (doTheThing st)); simpl; intros; try lia; discriminate.
Qed.

(** A handler reached by a user puts at most one more mutation in
    flight. *)
Lemma handler_count (a : Action) (st : State) (h : Handler) :
  handler_of a st = Some h →
  (in_flight_count (fst (run h st)) ≤ S (in_flight_count st))%nat.
Proof.
  destruct a as [value|value| |row|row]; simpl.
  - intros [= <-]. change (in_flight_count st ≤ S (in_flight_count st))%nat. lia.
  - intros [= <-]. change (in_flight_count st ≤ S (in_flight_count st))%nat. lia.
  - intros [= <-]. unfold createLocation_onClick.
    destruct (bool_decide (locationName st = ""));
      [change (in_flight_count st ≤ S (in_flight_count st))%nat; lia|].
    unfold in_flight_count. cbn [run fst foldl exec with_createLocation
      createLocation removeLocation doTheThing].
    case_flags st.
  - destruct (default [] (data (locations st)) !! row) as [l|]; [|discriminate].
    intros [= <-]. unfold in_flight_count. cbn [run fst foldl exec with_removeLocation
      createLocation removeLocation doTheThing].
    case_flags st.
  - destruct (default [] (data (locations st)) !! row) as [l|]; [|discriminate].
    intros [= <-]. unfold in_flight_count. cbn [run fst foldl exec with_doTheThing
      createLocation removeLocation doTheThing].
    case_flags st.
Qed.

Lemma settle_count (e : Event) (st : State) :
  match e with
  | User _ => True
  | CreateSettled o =>
      (in_flight_count (fst (createLocation_settle o st)) ≤ in_flight_count st)%nat
  | RemoveSettled o =>
      (in_flight_count (fst (removeLocation_settle o st)) ≤ in_flight_count st)%nat
  | DoTheThingSettled o =>
      (in_flight_count (fst (doTheThing_settle o st)) ≤ in_flight_count st)%nat
  | ListChanged q => in_flight_count (with_locations q st) = in_flight_count st
  end.
Proof.
  destruct e as [a|o|o|o|q]; try exact I; try reflexivity;
    destruct o; unfold in_flight_count; simpl;
    destruct (Mutation.isLoading (createLocation st)),
      (Mutation.isLoading (removeLocation st)),
      (Mutation.isLoading (doTheThing st)); simpl; lia.
Qed.

Lemma step_count (e : Event) (st : State) :
  (in_flight_count st ≤ 1 → in_flight_count (fst (step e st)) ≤ 1)%nat.
Proof.
  intros Hle. unfold step. cbn [fst]. rewrite commit_in_flight_count.
  pose proof (settle_count e st) as Hs.
  destruct e as [a|o|o|o|q]; try lia.
  - rewrite deliver_render. destruct (isLoading st) eqn:Hbusy; [exact Hle|].
    destruct (handler_of a st) as [h|] eqn:Hh; [|exact Hle].
    pose proof (handler_count a st h Hh). rewrite (idle_count st Hbusy) in *. lia.
  - simpl. lia.
Qed.

(** A request goes out only from a playground with nothing in flight, and
    puts exactly one mutation in flight. *)
Lemma request_only_when_idle (e : Event) (c : Call) (st : State) :
  c ∈ snd (step e st) → is_request c = true →
  isLoading st = false ∧ in_flight_count (fst (step e st)) = 1%nat.
Proof.
  intros Hc Hreq. unfold step in *. cbn [fst snd] in *.
  rewrite commit_in_flight_count.
  apply elem_of_app in Hc as [Hc|Hc].
  - destruct e as [a|o|o|o|q].
    + rewrite deliver_render in *.
      destruct (isLoading st) eqn:Hbusy;
        [apply elem_of_nil in Hc; contradiction|].
      split; [reflexivity|].
      pose proof (idle_count st Hbusy) as H0.
      destruct (handler_of a st) as [h|] eqn:Hh;
        [|apply elem_of_nil in Hc; contradiction].
      pose proof (handler_count a st h Hh) as Hcount.
      assert (in_flight_count (fst (run h st)) ≠ 0%nat); [|lia].
      clear Hcount. simpl in Hc.
      destruct a as [value|value| |row|row]; simpl in Hh.
      *  injection Hh as <-. apply list_elem_of_singleton in Hc. subst c.
         discriminate Hreq.
      *  injection Hh as <-. apply list_elem_of_singleton in Hc. subst c.
         discriminate Hreq.
      *  injection Hh as <-. unfold createLocation_onClick in *.
         destruct (bool_decide (locationName st = ""));
           [apply elem_of_nil in Hc; contradiction|].
         unfold in_flight_count. simpl. lia.
      *  destruct (default [] (data (locations st)) !! row); [|discriminate].
         injection Hh as <-. unfold in_flight_count. simpl. lia.
      *  destruct (default [] (data (locations st)) !! row); [|discriminate].
         injection Hh as <-. unfold in_flight_count. simpl. lia.
    + destruct o; simpl in Hc;
        repeat (apply elem_of_cons in Hc as [->|Hc]; [discriminate Hreq|]);
        apply elem_of_nil in Hc; contradiction.
    + destruct o; simpl in Hc;
        repeat (apply elem_of_cons in Hc as [->|Hc]; [discriminate Hreq|]);
        apply elem_of_nil in Hc; contradiction.
    + destruct o; simpl in Hc;
        repeat (apply elem_of_cons in Hc as [->|Hc]; [discriminate Hreq|]);
        apply elem_of_nil in Hc; contradiction.
    + apply elem_of_nil in Hc; contradiction.
  - exfalso. unfold useEffect in Hc.
    destruct (bool_decide (path _ = "")); [|apply elem_of_nil in Hc; contradiction].
    destruct (first_location _); [|apply elem_of_nil in Hc; contradiction].
    apply list_elem_of_singleton in Hc. subst c. discriminate Hreq.
Qed.

(** X6: through the rendered controls at most one mutation is in flight
    at any time: starting with at most one in flight, whatever the user
    does and however the mutations settle and the list changes, there is
    never a second one, and a request is issued only while none is in
    flight. *)
Theorem at_most_one_mutation_in_flight (es : list Event) (st : State) :
  (in_flight_count st ≤ 1)%nat →
  (in_flight_count (fst (steps es st)) ≤ 1)%nat
  ∧ (∀ e c, c ∈ snd (step e st) → is_request c = true →
            isLoading st = false ∧ in_flight_count (fst (step e st)) = 1%nat).
Proof.
  intros Hle. split.
  - revert st Hle. induction es as [|e es IH]; intros st Hle; [exact Hle|].
    simpl. apply IH, step_count, Hle.
  - intros e c. apply request_only_when_idle.
Qed.

Lemma at_most_one_mutation_in_flight_witness :
  (in_flight_count
     (fst (steps [User ClickCreate; User (ClickDelete 0);
                  CreateSettled (Failed {| message := "offline" |});
                  User (ClickDoTheThing 1)] typed)) ≤ 1)%nat.
Proof.
  assert (Hidle : (in_flight_count typed ≤ 1)%nat) by (vm_compute; lia).
  apply (proj1 (at_most_one_mutation_in_flight
                  [User ClickCreate; User (ClickDelete 0);
                   CreateSettled (Failed {| message := "offline" |});
                   User (ClickDoTheThing 1)] typed Hidle)).
Defined.

(** *** From request to settlement *)

Lemma settle_unlocks (e : Event) (st : State) :
  in_flight_count st = 1%nat → settles e st = true →
  isLoading (fst (step e st)) = false.
Proof.
  intros Hone He. unfold step. cbn [fst]. rewrite commit_isLoading.
  destruct e as [a|o|o|o|q]; try discriminate He;
    destruct o; unfold in_flight_count, isLoading in *; simpl in *;
    rewrite He in *; simpl in *;
    repeat match goal with
           | H : context [Mutation.isLoading ?m] |- _ =>
               destruct (Mutation.isLoading m); simpl in H; try lia
           end; reflexivity.
Qed.

(** X7: a request locks the playground until it settles: from a
    playground with nothing in flight, a user action that issues a request
    leaves every control disabled; when the one mutation in flight settles,
    whatever its outcome, every control is enabled again. *)
Theorem controls_locked_until_settlement (st : State) :
  (∀ a c, c ∈ snd (step (User a) st) → is_request c = true →
     Forall (λ disabled, disabled = true)
            (controls (HostedLocationsPlayground (fst (step (User a) st)))))
  ∧ (∀ e, in_flight_count st = 1%nat → settles e st = true →
       Forall (λ disabled, disabled = false)
              (controls (HostedLocationsPlayground (fst (step e st))))).
Proof.
  split.
  - intros a c Hc Hreq.
    destruct (request_only_when_idle _ _ _ Hc Hreq) as [_ Hone].
    eapply Forall_impl; [apply PlaygroundSpec.controls_follow_isLoading|].
    intros d ->. destruct (isLoading (fst (step (User a) st))) eqn:Hl;
      [reflexivity|]. apply idle_count in Hl. lia.
  - intros e Hone He.
    eapply Forall_impl; [apply PlaygroundSpec.controls_follow_isLoading|].
    intros d ->. apply settle_unlocks; assumption.
Qed.

Lemma controls_locked_until_settlement_witness :
  Forall (λ disabled, disabled = true)
         (controls (HostedLocationsPlayground (fst (step (User ClickCreate) typed))))
  ∧ Forall (λ disabled, disabled = false)
           (controls (HostedLocationsPlayground
                        (fst (step (CreateSettled (Succeeded ada)) creating)))).
Proof.
  split.
  - apply (proj1 (controls_locked_until_settlement typed)
             ClickCreate (createLocation_mutate "Carol")).
    + vm_compute. apply list_elem_of_singleton. reflexivity.
    + reflexivity.
  - apply (proj2 (controls_locked_until_settlement creating)
             (CreateSettled (Succeeded ada))); reflexivity.
Defined.

(** *** Creating a location, start to end *)

Lemma idle_flags (st : State) :
  isLoading st = false →
  createLocation st = idle ∧ removeLocation st = idle ∧ doTheThing st = idle.
Proof.
  unfold isLoading. destruct st as [q n p [c] [r] [d]]; simpl.
  destruct c, r, d; simpl; intros; try discriminate. repeat split.
Qed.

(** X8: creating, start to end.  With a name typed and nothing in flight,
    the click issues exactly one create request carrying the name.  If the
    create fails, nothing is called and the playground is exactly as before
    the click, the typed name still in the input.  If it succeeds, the list
    is refetched, only the name input changes (it is emptied), and a second
    click on Create Location issues nothing. *)
Theorem create_start_to_end (st : State) :
  isLoading st = false → settled st → locationName st ≠ "" →
  let clicked := step (User ClickCreate) st in
  snd clicked = [createLocation_mutate (locationName st)]
  ∧ (∀ err, step (CreateSettled (Failed err)) (fst clicked) = (st, []))
  ∧ (∀ created,
       let done := step (CreateSettled (Succeeded created)) (fst clicked) in
       fst done = with_locationName "" st
       ∧ snd done = [locations_refetch; setLocationName ""]
       ∧ snd (step (User ClickCreate) (fst done)) = []).
Proof.
  intros Hidle Hs Hname. cbv zeta.
  destruct (idle_flags st Hidle) as (Hc & Hr & Hd).
  unfold settled in Hs.
  assert (Hclick : step (User ClickCreate) st
                   = (with_createLocation in_flight st,
                      [createLocation_mutate (locationName st)])).
  { unfold step. rewrite deliver_render, Hidle. cbn [handler_of].
    unfold createLocation_onClick. rewrite (bool_decide_eq_false_2 _ Hname).
    cbn [run fst snd foldl exec].
    assert (He : useEffect (with_createLocation in_flight st) = []) by exact Hs.
    unfold commit. rewrite He. reflexivity. }
  rewrite Hclick. cbn [fst snd]. split; [reflexivity|]. split.
  - intros err. unfold step. cbn [createLocation_settle run fst snd foldl].
    assert (Hback : with_createLocation idle (with_createLocation in_flight st) = st).
    { destruct st; simpl in *. subst. reflexivity. }
    rewrite Hback. unfold commit. rewrite Hs. reflexivity.
  - intros created.
    assert (Hdone : step (CreateSettled (Succeeded created))
                      (with_createLocation in_flight st)
                    = (with_locationName "" st,
                       [locations_refetch; setLocationName ""])).
    { unfold step.
      cbn [createLocation_settle createLocation_onSuccess run fst snd foldl exec].
      assert (Hst : with_locationName ""
                      (with_createLocation idle (with_createLocation in_flight st))
                    = with_locationName "" st).
      { destruct st; simpl in *. subst. reflexivity. }
      rewrite Hst.
      assert (He : useEffect (with_locationName "" st) = []) by exact Hs.
      unfold commit. rewrite He. reflexivity. }
    rewrite Hdone. cbn [fst snd]. repeat split.
    unfold step. rewrite deliver_render.
    assert (Hl : isLoading (with_locationName "" st) = false) by exact Hidle.
    rewrite Hl. cbn [handler_of]. unfold createLocation_onClick.
    cbn [locationName with_locationName]. rewrite bool_decide_eq_true_2 by reflexivity.
    cbn [run fst snd foldl].
    assert (He : useEffect (with_locationName "" st) = []) by exact Hs.
    rewrite He. reflexivity.
Qed.

Lemma create_start_to_end_witness :
  snd (step (User ClickCreate) typed) = [createLocation_mutate "Carol"]
  ∧ step (CreateSettled (Failed {| message := "offline" |}))
         (fst (step (User ClickCreate) typed)) = (typed, []).
Proof.
  assert (Hname : locationName typed ≠ "") by discriminate.
  destruct (create_start_to_end typed eq_refl eq_refl Hname) as (Hc & Hf & _).
  split; [exact Hc | apply Hf].
Defined.

(** *** What is called, and when *)

Lemma quiet_count (cs : list Call) :
  Forall quiet cs →
  count_occ Call_eq_dec cs locations_refetch = 0%nat
  ∧ List.filter is_toast cs = [].
Proof.
  induction 1 as [|c cs [Hr Ht] _ [IH1 IH2]]; [split; reflexivity|].
  simpl. rewrite Ht. destruct (Call_eq_dec c locations_refetch); [contradiction|].
  split; assumption.
Qed.

Lemma useEffect_quiet (st : State) : Forall quiet (useEffect st).
Proof.
  unfold useEffect. destruct (bool_decide (path st = "")); [|constructor].
  destruct (first_location (locations st)); repeat constructor. discriminate.
Qed.

Lemma handler_quiet (a : Action) (st : State) (h : Handler) :
  handler_of a st = Some h → Forall quiet h.
Proof.
  destruct a as [value|value| |row|row]; simpl.
  - intros [= <-]. repeat constructor. discriminate.
  - intros [= <-]. repeat constructor. discriminate.
  - intros [= <-]. unfold createLocation_onClick.
    destruct (bool_decide (locationName st = "")); repeat constructor. discriminate.
  - destruct (default [] (data (locations st)) !! row); [|discriminate].
    intros [= <-]. repeat constructor. discriminate.
  - destruct (default [] (data (locations st)) !! row); [|discriminate].
    intros [= <-]. repeat constructor. discriminate.
Qed.

Lemma user_quiet (a : Action) (st : State) :
  Forall quiet (snd (deliver (target a (HostedLocationsPlayground st)) st)).
Proof.
  rewrite deliver_render. destruct (isLoading st); [constructor|].
  destruct (handler_of a st) as [h|] eqn:Hh; [|constructor].
  apply (handler_quiet a st h Hh).
Qed.

Lemma step_calls (e : Event) (st : State) :
  count_occ Call_eq_dec (snd (step e st)) locations_refetch
  = (if refetching e then 1 else 0)%nat
  ∧ length (List.filter is_toast (snd (step e st)))
    = (if notifying e then 1 else 0)%nat.
Proof.
  unfold step. cbn [snd].
  rewrite count_occ_app, List.filter_app, length_app.
  match goal with
  | |- context [useEffect ?s] =>
      destruct (quiet_count _ (useEffect_quiet s)) as [-> ->]
  end.
  destruct e as [a|o|o|o|q].
  - destruct (quiet_count _ (user_quiet a st)) as [-> ->]. split; reflexivity.
  - destruct o; split; reflexivity.
  - destruct o; split; reflexivity.
  - destruct o; split; reflexivity.
  - split; reflexivity.
Qed.

(** X9: what the playground calls back.  Along every run the list is
    refetched once for each create or remove that succeeds and at no other
    time, and a notification is shown once for each diagnostic mutation that
    settles and at no other time: a failed create or remove is silent. *)
Theorem refetches_and_notifications (es : list Event) (st : State) :
  count_occ Call_eq_dec (snd (steps es st)) locations_refetch
  = length (List.filter refetching es)
  ∧ length (List.filter is_toast (snd (steps es st)))
    = length (List.filter notifying es).
Proof.
  revert st. induction es as [|e es IH]; intros st; [split; reflexivity|].
  cbn [steps snd List.filter].
  rewrite count_occ_app, List.filter_app, length_app.
  destruct (IH (fst (step e st))) as [-> ->].
  destruct (step_calls e st) as [-> ->].
  destruct (refetching e), (notifying e); split; reflexivity.
Qed.

(** *** The path a diagnostic request carries *)

Lemma settled_listed_path (st : State) (row : nat) (l : CloudLocation) :
  settled st → default [] (data (locations st)) !! row = Some l → path st ≠ "".
Proof.
  unfold settled, useEffect, first_location. intros Hs Hrow Hp.
  rewrite (bool_decide_eq_true_2 _ Hp) in Hs.
  destruct (data (locations st)) as [[|l0 ls]|]; simpl in *;
    try discriminate Hs; rewrite lookup_nil in Hrow; discriminate Hrow.
Qed.

Lemma step_request_path (e : Event) (st : State) :
  settled st → Forall (λ c, request_path c ≠ Some "") (snd (step e st)).
Proof.
  intros Hs. unfold step. cbn [snd]. apply Forall_app. split.
  - destruct e as [a|o|o|o|q].
    + rewrite deliver_render. destruct (isLoading st); [constructor|].
      destruct a as [value|value| |row|row]; cbn [handler_of].
      * repeat constructor. discriminate.
      * repeat constructor. discriminate.
      * unfold createLocation_onClick.
        destruct (bool_decide (locationName st = "")); repeat constructor.
        discriminate.
      * destruct (default [] (data (locations st)) !! row);
          repeat constructor. discriminate.
      * destruct (default [] (data (locations st)) !! row) as [l|] eqn:Hrow;
          repeat constructor.
        simpl. intros [= Hp]. exact (settled_listed_path st row l Hs Hrow Hp).
    + destruct o; repeat constructor; discriminate.
    + destruct o; repeat constructor; discriminate.
    + destruct o; repeat constructor; discriminate.
    + constructor.
  - unfold useEffect.
    match goal with |- context [bool_decide ?P] => destruct (bool_decide P) end;
      [|constructor].
    match goal with |- context [first_location ?q] => destruct (first_location q) end;
      repeat constructor.
    discriminate.
Qed.

(** X10: the diagnostic mutation is never sent with an empty path.  In
    every run that starts after the effect has come to rest (as it has once
    the component is mounted), each Do-the-thing request carries a path that
    is not the empty string: a row exists only when a location is listed,
    and then the auto-fill has filled an empty field. *)
Theorem diagnostic_path_never_empty (es : list Event) (st : State) :
  settled st →
  Forall (λ c, request_path c ≠ Some "") (snd (steps es st))
  ∧ settled (fst (steps es st)).
Proof.
  revert st. induction es as [|e es IH]; intros st Hs.
  - split; [constructor | exact Hs].
  - cbn [steps fst snd].
    destruct (IH (fst (step e st)) (settled_step e st)) as [IH1 IH2].
    split; [|exact IH2].
    apply Forall_app. split; [apply step_request_path, Hs | exact IH1].
Qed.

Lemma diagnostic_path_never_empty_witness :
  Forall (λ c, request_path c ≠ Some "")
         (snd (steps [ListChanged {| status := success; data := Some [ada] |};
                      User (TypePath ""); User (ClickDoTheThing 0)] mounted)).
Proof.
  apply (proj1 (diagnostic_path_never_empty
                  [ListChanged {| status := success; data := Some [ada] |};
                   User (TypePath ""); User (ClickDoTheThing 0)] mounted eq_refl)).
Defined.

(** *** The name, from the input to the request *)

Lemma useEffect_no_request (st : State) :
  List.filter is_request (useEffect st) = [].
Proof.
  unfold useEffect. destruct (bool_decide (path st = "")); [|reflexivity].
  destruct (first_location (locations st)); reflexivity.
Qed.

Lemma commit_locationName (st : State) :
  locationName (fst (commit st)) = locationName st.
Proof. destruct (commit_as_with_path st) as [p ->]. reflexivity. Qed.

Lemma createLocation_onClick_typed (st : State) (value : string) :
  createLocation_onClick (fst (run (locationName_onInput value) st))
  = if bool_decide (value = "") then [] else [createLocation_mutate value].
Proof. reflexivity. Qed.

Lemma step_user_idle (a : Action) (st : State) (h : Handler) :
  isLoading st = false → handler_of a st = Some h →
  step (User a) st
  = (fst (commit (fst (run h st))), h ++ useEffect (fst (run h st))).
Proof.
  intros Hidle Hh. unfold step. rewrite deliver_render, Hidle, Hh. reflexivity.
Qed.

(** The requests of a name typed and Create Location clicked, by a user of
    a playground with nothing in flight. *)
Lemma type_then_click_requests (st : State) (value : string) :
  isLoading st = false →
  List.filter is_request (snd (steps [User (TypeName value); User ClickCreate] st))
  = if bool_decide (value = "") then [] else [createLocation_mutate value].
Proof.
  intros Hidle. cbn [steps fst snd]. rewrite app_nil_r.
  rewrite (step_user_idle (TypeName value) st (locationName_onInput value) Hidle eq_refl).
  cbn [fst snd].
  set (st1 := fst (commit (fst (run (locationName_onInput value) st)))).
  assert (Hidle1 : isLoading st1 = false).
  { unfold st1. rewrite commit_isLoading. exact Hidle. }
  assert (Hname1 : locationName st1 = value).
  { unfold st1. rewrite commit_locationName. reflexivity. }
  rewrite (step_user_idle ClickCreate st1 (createLocation_onClick st1) Hidle1 eq_refl).
  cbn [fst snd].
  rewrite !List.filter_app, !useEffect_no_request, !app_nil_r.
  unfold createLocation_onClick. rewrite Hname1.
  destruct (bool_decide (value = "")); reflexivity.
Qed.

(** C9: the name goes from the input to the request untouched, and the
    guard of Create Location is strict equality with the empty string.
    Whatever is typed into the name input is what the input then shows; the
    click that follows issues no request exactly when what was typed is the
    empty string, and otherwise issues one create request carrying the name
    exactly as typed.  In particular a name made only of white space (a
    space, a no-break space, any code point that trimming would strip) is
    sent, untrimmed.  The same holds for a user typing and clicking on a
    playground with nothing in flight. *)
Theorem create_sends_name_as_typed (st : State) (value : string) :
  ∃ shown onInput onClick,
    inputs (HostedLocationsPlayground st) !! 0%nat = Some (shown, onInput)
    ∧ shown = locationName st
    ∧ inputs (HostedLocationsPlayground (fst (run (onInput value) st))) !! 0%nat
      = Some (value, onInput)
    ∧ buttons "Create Location"
        (HostedLocationsPlayground (fst (run (onInput value) st))) = [onClick]
    ∧ (snd (run onClick (fst (run (onInput value) st))) = [] ↔ value = "")
    ∧ (value ≠ "" →
       snd (run onClick (fst (run (onInput value) st)))
       = [createLocation_mutate value])
    ∧ (white_space_only value = true →
       snd (run onClick (fst (run (onInput value) st)))
       = [createLocation_mutate value])
    ∧ (isLoading st = false →
       List.filter is_request
         (snd (steps [User (TypeName value); User ClickCreate] st))
       = if bool_decide (value = "") then [] else [createLocation_mutate value]).
Proof.
  exists (locationName st), locationName_onInput,
    (createLocation_onClick (fst (run (locationName_onInput value) st))).
  rewrite !PlaygroundSpec.inputs_render, PlaygroundSpec.create_button.
  split; [reflexivity|]. split; [reflexivity|]. split; [reflexivity|].
  split; [reflexivity|].
  rewrite createLocation_onClick_typed. cbn [run snd].
  split; [|split; [|split]].
  - destruct (decide (value = "")) as [Hv|Hv].
    + rewrite (bool_decide_eq_true_2 _ Hv). split; [intros _; exact Hv | reflexivity].
    + rewrite (bool_decide_eq_false_2 _ Hv). split; [discriminate | contradiction].
  - intros Hv. rewrite (bool_decide_eq_false_2 _ Hv). reflexivity.
  - intros Hws. apply PlaygroundSpec.white_space_only_not_empty in Hws.
    rewrite (bool_decide_eq_false_2 _ Hws). reflexivity.
  - apply type_then_click_requests.
Qed.

Lemma create_sends_name_as_typed_witness :
  (∃ shown onInput onClick,
     inputs (HostedLocationsPlayground listed) !! 0%nat = Some (shown, onInput)
     ∧ buttons "Create Location"
         (HostedLocationsPlayground (fst (run (onInput " ") listed))) = [onClick]
     ∧ snd (run onClick (fst (run (onInput " ") listed)))
       = [createLocation_mutate " "]
     ∧ List.filter is_request
         (snd (steps [User (TypeName " "); User ClickCreate] listed))
       = [createLocation_mutate " "])
  ∧ (∃ shown onInput onClick,
       inputs (HostedLocationsPlayground listed) !! 0%nat = Some (shown, onInput)
       ∧ buttons "Create Location"
           (HostedLocationsPlayground (fst (run (onInput nbsp) listed))) = [onClick]
       ∧ snd (run onClick (fst (run (onInput nbsp) listed)))
         = [createLocation_mutate nbsp]).
Proof.
  split.
  - destruct (create_sends_name_as_typed listed " ")
      as (shown & onInput & onClick & Hin & _ & _ & Hb & _ & _ & Hws & Hidle).
    exists shown, onInput, onClick.
    split; [exact Hin|]. split; [exact Hb|]. split.
    + apply Hws. reflexivity.
    + apply Hidle. reflexivity.
  - destruct (create_sends_name_as_typed listed nbsp)
      as (shown & onInput & onClick & Hin & _ & _ & Hb & _ & _ & Hws & _).
    exists shown, onInput, onClick.
    split; [exact Hin|]. split; [exact Hb|].
    apply Hws. reflexivity.
Defined.

End InteractionSpec.

(** ** The tags section *)

Module TagsSpec.
Import Tags.

Lemma listed_src_not_empty (v : VideoInfo) : v ∈ videos → src v ≠ "".
Proof.
  unfold videos. intros H.
  repeat (apply elem_of_cons in H as [->|H]; [discriminate|]).
  apply elem_of_nil in H. contradiction.
Qed.

(** X11: the overlay player follows the selection.  It is rendered exactly
    when the selection is a string that is not empty, and then plays that
    string; the grid does not depend on the selection.  Clicking the tile of
    any listed video, from any state, selects a value for which the overlay
    plays exactly that video's source. *)
Theorem overlay_follows_selection (selectedVideo : option string) :
  (∀ playing, overlay (Tags selectedVideo) = Some playing
              ↔ selectedVideo = Some playing ∧ playing ≠ "")
  ∧ grid (Tags selectedVideo) = grid (Tags selectedVideo_initial)
  ∧ (∀ i t, grid (Tags selectedVideo) !! i = Some t →
       ∃ v, videos !! i = Some v ∧ video t = v ∧ h2 t = title v
            ∧ p t = description v
            ∧ overlay (Tags (onClick t)) = Some (src v)).
Proof.
  split; [|split].
  - intros playing. unfold Tags, truthy. simpl.
    destruct selectedVideo as [s|]; simpl.
    + case_bool_decide as Hs; simpl.
      * split; [discriminate | intros [[= ->] H]; contradiction].
      * split; [intros [= ->]; split; [reflexivity | exact Hs] | intros [H _]; exact H].
    + split; [discriminate | intros [H _]; discriminate H].
  - reflexivity.
  - intros i t. unfold Tags. cbn [grid]. rewrite list_lookup_fmap.
    destruct (videos !! i) as [v|] eqn:Hv; [|discriminate].
    intros [= <-]. exists v. repeat split.
    cbn [onClick tile overlay truthy].
    assert (Hsrc : src v ≠ "").
    { apply listed_src_not_empty. apply list_elem_of_lookup. eauto. }
    rewrite (bool_decide_eq_false_2 _ Hsrc). reflexivity.
Qed.

Lemma overlay_follows_selection_witness :
  ∃ v, videos !! 1%nat = Some v
       ∧ overlay (Tags (Some (src v))) = Some "/videos/Spacedrive_tags.webm".
Proof.
  destruct (proj2 (proj2 (overlay_follows_selection None)) 1%nat
              (tile {| title := "Contextual Tagging";
                       src := "/videos/Spacedrive_tags.webm";
                       description :=
                         "Tag files and folders directly from the right-click menu" |})
              eq_refl)
    as (v & Hv & Ht & _ & _ & Ho).
  exists v. split; [exact Hv|]. simpl in Ht. subst v. exact Ho.
Defined.

End TagsSpec.

